(** * Lingo: diagnostic contexts and the token model

    A shallow embedding of [lingo/error.cpp] and [lingo/token.hpp].

    - [int] values are integers of [Z] kept in the 32-bit two's-complement
      range by [int_wrap];
    - [std::cerr] is the string of the characters written so far;
    - a [Diagnostic_context] object lives in a store indexed by its address,
      and the process-wide [std::stack<Diagnostic_context*>] holds addresses,
      so that the facade functions reach the object through [diags_.top()];
    - operations whose behaviour is undefined in C++ ([top] and [pop] of an
      empty stack, a dangling pointer, reading past a buffer) yield [None]
      in the error monad [M]. *)

From Stdlib Require Import ZArith Ascii String.
From stdpp Require Import base decidable option list strings countable gmap.

Local Open Scope Z_scope.

(** ** Declarations of [lingo/location.hpp] and [lingo/error.hpp]

    The source locations and the way they print are declared outside the
    two files, and so is the default argument of the constructor of
    [Diagnostic_context]; the model takes them from this interface. *)

Class Headers : Type := {
  Location : Type;
  Location_null : Location;                     (* Location{} *)
  Bound_location : Type;
  print_Bound_location : Bound_location -> string;
  default_suppress : bool
}.

Section Model.

Context {headers : Headers}.

(** ** Machine integers *)

Definition INT_MIN : Z := -2147483648.
Definition INT_MAX : Z := 2147483647.

Definition int_wrap (z : Z) : Z := (z - INT_MIN) `mod` 2 ^ 32 + INT_MIN.

(* ++n on an int *)
Definition int_incr (n : Z) : Z := int_wrap (n + 1).

(** ** Output streams *)

Definition ostream : Type := string.

Definition newline : ascii := ascii_of_nat 10.

Definition put_string (os : ostream) (s : string) : ostream := os +:+ s.

Definition put_char (os : ostream) (c : ascii) : ostream :=
  os +:+ String c EmptyString.

(** ** Diagnostics *)

Inductive Diagnostic_kind : Type :=
| error_diag
| warning_diag
| note_diag.

Record Diagnostic : Type := mk_Diagnostic {
  kind : Diagnostic_kind;
  loc : Bound_location;
  msg : string
}.

#[local] Instance Diagnostic_kind_eq_dec : EqDecision Diagnostic_kind.
Proof. solve_decision. Defined.

(* operator<<(std::ostream&, Diagnostic_kind); the enumeration has the three
   enumerators only, so the unreachable default has no counterpart. *)
Definition put_Diagnostic_kind (os : ostream) (k : Diagnostic_kind) : ostream :=
  match k with
  | error_diag => put_string os "error"
  | warning_diag => put_string os "warning"
  | note_diag => put_string os "note"
  end.

(* operator<<(std::ostream&, Diagnostic const&) *)
Definition put_Diagnostic (os : ostream) (diag : Diagnostic) : ostream :=
  put_string
    (put_string
       (put_string (put_char (put_Diagnostic_kind os (kind diag)) ":")
                   (print_Bound_location (loc diag)))
       ": ")
    (msg diag).

(** ** Diagnostic contexts

    The class derives from [std::vector<Diagnostic>]: [elems] is the
    inherited sequence, in insertion order. The counter [errs_] is an
    [int], as [error_count()] returns it. *)

Record Diagnostic_context : Type := mk_Diagnostic_context {
  suppress_ : bool;
  errs_ : Z;
  elems : list Diagnostic
}.

Definition push_back (diag : Diagnostic) (this : Diagnostic_context)
  : Diagnostic_context :=
  {| suppress_ := suppress_ this;
     errs_ := errs_ this;
     elems := elems this ++ [diag] |}.

Definition clear (this : Diagnostic_context) : Diagnostic_context :=
  {| suppress_ := suppress_ this; errs_ := errs_ this; elems := [] |}.

Definition set_errs (n : Z) (this : Diagnostic_context) : Diagnostic_context :=
  {| suppress_ := suppress_ this; errs_ := n; elems := elems this |}.

(** Modelled from the spec: [Diagnostic_context::errors()] is defined in
    [lingo/error.hpp]; it reads the context's error counter. *)
Definition errors (this : Diagnostic_context) : Z := errs_ this.

(** A member function acts on the object and on [std::cerr]. *)

Definition method : Type :=
  Diagnostic_context -> ostream -> Diagnostic_context * ostream.

(* Diagnostic_context::emit(Diagnostic const&) *)
Definition emit (diag : Diagnostic) : method := fun this cerr =>
  let this :=
    if decide (kind diag = error_diag)
    then set_errs (int_incr (errs_ this)) this
    else this in
  if suppress_ this
  then (push_back diag this, cerr)
  else (this, put_char (put_Diagnostic cerr diag) newline).

(* Diagnostic_context::reset() *)
Definition reset : method := fun this cerr =>
  (set_errs 0 (clear this), cerr).

(* Diagnostic_context::emit() *)
Definition emit_saved : method := fun this cerr =>
  if suppress_ this
  then (this,
        fold_left (fun os diag => put_char (put_Diagnostic os diag) newline)
                  (elems this) cerr)
  else (this, cerr).

(* this->emit(d) for each d of ds, in order *)
Definition emit_each (ds : list Diagnostic) : method := fun this cerr =>
  fold_left (fun st diag => emit diag st.1 st.2) ds (this, cerr).

(** ** The process: objects, the diagnostic stack, the root, [std::cerr] *)

Inductive addr : Type :=
| root_                       (* the static object of init_diagnostics *)
| automatic (n : nat).        (* any other object *)

#[local] Instance addr_eq_dec : EqDecision addr.
Proof. solve_decision. Defined.

Definition addr_code (a : addr) : option nat :=
  match a with root_ => None | automatic n => Some n end.

Definition addr_decode (o : option nat) : addr :=
  match o with None => root_ | Some n => automatic n end.

#[local] Instance addr_countable : Countable addr.
Proof.
  apply (inj_countable' addr_code addr_decode). by intros [].
Defined.

Record World : Type := mk_World {
  objects : gmap addr Diagnostic_context;  (* the live contexts *)
  diags_ : list addr;                      (* the stack, top first *)
  root_done : bool;                        (* root_ has been constructed *)
  cerr : ostream
}.

Definition M (A : Type) : Type := World -> option (A * World).

Definition ret {A} (a : A) : M A := fun w => Some (a, w).

Definition bind {A B} (m : M A) (k : A -> M B) : M B := fun w =>
  match m w with
  | Some (a, w') => k a w'
  | None => None
  end.

#[local] Notation "x <- m ;; k" := (bind m (fun x => k))
  (at level 100, m at next level, right associativity).
#[local] Notation "m ;; k" := (bind m (fun _ => k))
  (at level 100, right associativity).

Definition eval {A} (m : M A) (w : World) : option A := fst <$> m w.
Definition exec {A} (m : M A) (w : World) : option World := snd <$> m w.

(* diags_.push(p) *)
Definition stack_push (p : addr) : M unit := fun w =>
  Some (tt, {| objects := objects w; diags_ := p :: diags_ w;
               root_done := root_done w; cerr := cerr w |}).

(* diags_.pop() *)
Definition stack_pop : M unit := fun w =>
  match diags_ w with
  | [] => None
  | _ :: rest =>
      Some (tt, {| objects := objects w; diags_ := rest;
                   root_done := root_done w; cerr := cerr w |})
  end.

(* diags_.top() *)
Definition stack_top : M addr := fun w =>
  match diags_ w with
  | [] => None
  | p :: _ => Some (p, w)
  end.

Definition alloc (p : addr) (c : Diagnostic_context) : M unit := fun w =>
  Some (tt, {| objects := <[p := c]> (objects w); diags_ := diags_ w;
               root_done := root_done w; cerr := cerr w |}).

Definition dealloc (p : addr) : M unit := fun w =>
  Some (tt, {| objects := delete p (objects w); diags_ := diags_ w;
               root_done := root_done w; cerr := cerr w |}).

(* p->f(...) *)
Definition call (p : addr) (f : method) : M unit := fun w =>
  match objects w !! p with
  | None => None
  | Some c =>
      let (c', os) := f c (cerr w) in
      Some (tt, {| objects := <[p := c']> (objects w); diags_ := diags_ w;
                   root_done := root_done w; cerr := os |})
  end.

(* p->errors() *)
Definition call_errors (p : addr) : M Z := fun w =>
  match objects w !! p with
  | None => None
  | Some c => Some (errors c, w)
  end.

(* Diagnostic_context::Diagnostic_context(bool), for the object at this *)
Definition Diagnostic_context_ctor (this : addr) (suppress : bool) : M unit :=
  alloc this {| suppress_ := suppress; errs_ := 0; elems := [] |} ;;
  stack_push this.

(* Diagnostic_context::~Diagnostic_context(), for the object at this *)
Definition Diagnostic_context_dtor (this : addr) : M unit :=
  stack_pop ;;
  dealloc this.

(* init_diagnostics(): the static local is constructed by the first call *)
Definition init_diagnostics : M unit := fun w =>
  if root_done w then Some (tt, w)
  else
    (Diagnostic_context_ctor root_ default_suppress ;;
     fun w' => Some (tt, {| objects := objects w'; diags_ := diags_ w';
                            root_done := true; cerr := cerr w' |})) w.

Definition emit_diagnostics : M unit :=
  p <- stack_top ;; call p emit_saved.

Definition reset_diagnostics : M unit :=
  p <- stack_top ;; call p reset.

Definition error_count : M Z :=
  p <- stack_top ;; call_errors p.

Definition error (l : Bound_location) (m : string) : M unit :=
  p <- stack_top ;; call p (emit {| kind := error_diag; loc := l; msg := m |}).

Definition warning (l : Bound_location) (m : string) : M unit :=
  p <- stack_top ;; call p (emit {| kind := warning_diag; loc := l; msg := m |}).

(** ** Token kinds ([lingo/token.hpp]) *)

Definition Token_kind : Type := Z.             (* using Token_kind = int *)

Definition error_tok : Token_kind := 0.

Definition lparen_tok : Token_kind := 1.
Definition rparen_tok : Token_kind := 2.
Definition lbrace_tok : Token_kind := 3.
Definition rbrace_tok : Token_kind := 4.
Definition lbrack_tok : Token_kind := 5.
Definition rbrack_tok : Token_kind := 6.

Definition dot_tok : Token_kind := 7.
Definition comma_tok : Token_kind := 8.
Definition semicolon_tok : Token_kind := 9.
Definition colon_tok : Token_kind := 10.
Definition equal_tok : Token_kind := 11.
Definition plus_tok : Token_kind := 12.
Definition minus_tok : Token_kind := 13.
Definition star_tok : Token_kind := 14.
Definition slash_tok : Token_kind := 15.
Definition percent_tok : Token_kind := 16.
Definition amp_tok : Token_kind := 17.
Definition bar_tok : Token_kind := 18.
Definition caret_tok : Token_kind := 19.
Definition tilde_tok : Token_kind := 20.
Definition bang_tok : Token_kind := 21.
Definition lt_tok : Token_kind := 22.
Definition gt_tok : Token_kind := 23.

Definition minus_gt_tok : Token_kind := 24.
Definition eq_gt_tok : Token_kind := 25.
Definition lt_lt_tok : Token_kind := 26.
Definition gt_gt_tok : Token_kind := 27.
Definition eq_eq_tok : Token_kind := 28.
Definition bang_eq_tok : Token_kind := 29.
Definition lt_eq_tok : Token_kind := 30.
Definition gt_eq_tok : Token_kind := 31.
Definition amp_amp_tok : Token_kind := 32.
Definition bar_bar_tok : Token_kind := 33.
Definition dot_dot_tok : Token_kind := 34.

Definition identifier_tok : Token_kind := 50.
Definition boolean_tok : Token_kind := 51.
Definition binary_integer_tok : Token_kind := 52.
Definition decimal_integer_tok : Token_kind := 53.
Definition octal_integer_tok : Token_kind := 54.
Definition hexadecimal_integer_tok : Token_kind := 55.

(* The punctuation and operator kinds, in the order of their declaration. *)
Definition punctuation_toks : list Token_kind :=
  [ lparen_tok; rparen_tok; lbrace_tok; rbrace_tok; lbrack_tok; rbrack_tok;
    dot_tok; comma_tok; semicolon_tok; colon_tok; equal_tok; plus_tok;
    minus_tok; star_tok; slash_tok; percent_tok; amp_tok; bar_tok; caret_tok;
    tilde_tok; bang_tok; lt_tok; gt_tok;
    minus_gt_tok; eq_gt_tok; lt_lt_tok; gt_gt_tok; eq_eq_tok; bang_eq_tok;
    lt_eq_tok; gt_eq_tok; amp_amp_tok; bar_bar_tok; dot_dot_tok ].

(* is_integer(Token_kind) *)
Definition is_integer (k : Token_kind) : bool :=
  (binary_integer_tok <=? k) && (k <=? hexadecimal_integer_tok).

(** ** Tokens *)

Definition Symbol_ptr : Type := N.             (* Symbol* *)

Record Token : Type := mk_Token {
  loc_ : Location;
  kind_ : Token_kind;
  sym_ : Symbol_ptr
}.

(* Token::Token(): loc_ and kind_ are initialised, sym_ is left with
   whatever value the storage holds. *)
Definition Token_default (indeterminate : Symbol_ptr) : Token :=
  {| loc_ := Location_null; kind_ := error_tok; sym_ := indeterminate |}.

(* Token::location() *)
Definition Token_location (t : Token) : Location := loc_ t.

(* Token::kind() *)
Definition Token_kind_of (t : Token) : Token_kind := kind_ t.

(* Token::operator bool() *)
Definition Token_to_bool (t : Token) : bool :=
  negb (Token_kind_of t =? error_tok).

(* is_integer(Token const&) *)
Definition is_integer_Token (k : Token) : bool := is_integer (Token_kind_of k).

(** ** Token streams

    [first_] and [last_] point into one buffer of tokens; a pointer is the
    index of the token it points to, and the buffer is passed to the
    functions that read through a pointer. *)

(* using Token_list = std::vector<Token> *)
#[local] Abbreviation Token_list := (list Token) (only parsing).

Record Token_stream : Type := mk_Token_stream {
  first_ : nat;
  last_ : nat
}.

(* Token_stream::Token_stream(Token_list const&) *)
Definition Token_stream_over (toks : Token_list) : Token_stream :=
  {| first_ := 0%nat; last_ := length toks |}.

(* Token_stream::eof() *)
Definition eof (s : Token_stream) : bool := (first_ s =? last_ s)%nat.

(** Modelled from the spec: [Token_stream::peek()] is declared in
    [lingo/token.hpp] and defined outside it; it returns the current token
    without advancing, and is an error at the end of the stream. *)
Definition peek (buf : Token_list) (s : Token_stream) : option Token :=
  if eof s then None else buf !! first_ s.

(* Token_stream::location() *)
Definition location (buf : Token_list) (s : Token_stream) : option Location :=
  if eof s then Some Location_null
  else Token_location <$> peek buf s.

(** ** Token sets *)

(* struct Token_set: the two lookups; a null char const* is None *)
Record Token_set : Type := mk_Token_set {
  token_name : Token_kind -> option string;
  token_spelling : Token_kind -> option string
}.

(** Modelled from the spec: a token set as the registry sees it, with the
    range of kinds [range_first .. range_last] it is installed to own and
    the address that identifies it; the registry and its functions are
    defined outside [lingo/token.hpp]. *)
Record Owned_token_set : Type := mk_Owned_token_set {
  set_addr : nat;
  set_hooks : Token_set;
  range_first : Token_kind;
  range_last : Token_kind
}.

Definition owns (ts : Owned_token_set) (k : Token_kind) : bool :=
  (range_first ts <=? k) && (k <=? range_last ts).

Definition ranges_overlap (a b : Owned_token_set) : bool :=
  (Z.max (range_first a) (range_first b)
   <=? Z.min (range_last a) (range_last b)).

Inductive Registry_error : Type :=
| overlapping_token_sets.

(** Modelled from the spec: the registry is the sequence of the installed
    delegates, in the order of their installation. *)
#[local] Abbreviation Registry := (list Owned_token_set) (only parsing).

(** Modelled from the spec: [install_token_set] is declared in
    [lingo/token.hpp] and defined outside it; it registers a delegate, and
    an installation whose owned range overlaps that of an installed
    delegate is a caller error that is reported and registers nothing. *)
Definition install_token_set (ts : Owned_token_set) (reg : Registry)
  : Registry_error + Registry :=
  if existsb (ranges_overlap ts) reg
  then inl overlapping_token_sets
  else inr (reg ++ [ts]).

(** Modelled from the spec: [uninstall_token_set] removes the delegation
    of the given token set. *)
Definition uninstall_token_set (ts : Owned_token_set) (reg : Registry)
  : Registry :=
  filter (fun d => set_addr d <> set_addr ts) reg.

(** Modelled from the spec: the installed delegates that claim a kind. *)
Definition delegates (reg : Registry) (k : Token_kind) : list Owned_token_set :=
  filter (fun d => owns d k = true) reg.

(** A sequence of installations and removals, and the registry it leaves;
    a rejected installation leaves the registry as it was. *)
Inductive Registry_op : Type :=
| install_op (ts : Owned_token_set)
| uninstall_op (ts : Owned_token_set).

Definition registry_step (reg : Registry) (op : Registry_op) : Registry :=
  match op with
  | install_op ts =>
      match install_token_set ts reg with
      | inl _ => reg
      | inr reg' => reg'
      end
  | uninstall_op ts => uninstall_token_set ts reg
  end.

Definition registry_after (ops : list Registry_op) : Registry :=
  fold_left registry_step ops [].

(** ** Clients of the diagnostic facade *)

(* The context that the facade functions reach: *diags_.top() *)
Definition top_context (w : World) : option Diagnostic_context :=
  match diags_ w with
  | [] => None
  | p :: _ => objects w !! p
  end.

(* A report into the top context *)
Inductive report : Type :=
| report_emit (diag : Diagnostic)                  (* diags_.top()->emit(diag) *)
| report_error (l : Bound_location) (m : string)   (* error(l, m) *)
| report_warning (l : Bound_location) (m : string) (* warning(l, m) *).

Definition do_report (r : report) : M unit :=
  match r with
  | report_emit diag => p <- stack_top ;; call p (emit diag)
  | report_error l m => error l m
  | report_warning l m => warning l m
  end.

Fixpoint do_reports (rs : list report) : M unit :=
  match rs with
  | [] => ret tt
  | r :: rs' => do_report r ;; do_reports rs'
  end.

(* The diagnostic that a report emits *)
Definition reported (r : report) : Diagnostic :=
  match r with
  | report_emit diag => diag
  | report_error l m => {| kind := error_diag; loc := l; msg := m |}
  | report_warning l m => {| kind := warning_diag; loc := l; msg := m |}
  end.

Definition is_error (diag : Diagnostic) : bool :=
  bool_decide (kind diag = error_diag).

Definition count_errors (ds : list Diagnostic) : nat :=
  length (filter (fun diag => is_error diag = true) ds).

(* The text of a diagnostic at the reporting boundary, with the end of line *)
Definition kind_name (k : Diagnostic_kind) : string :=
  match k with
  | error_diag => "error"
  | warning_diag => "warning"
  | note_diag => "note"
  end.

Definition report_line (diag : Diagnostic) : string :=
  kind_name (kind diag) +:+ ":" +:+ print_Bound_location (loc diag)
    +:+ ": " +:+ msg diag +:+ String newline EmptyString.

Fixpoint report_lines (ds : list Diagnostic) : string :=
  match ds with
  | [] => EmptyString
  | diag :: ds' => report_line diag +:+ report_lines ds'
  end.

(* Construction and destruction of contexts by a client *)
Inductive lifetime_event : Type :=
| construct (this : addr) (suppress : bool)
| destroy (this : addr).

Definition lifetime_step (e : lifetime_event) : M unit :=
  match e with
  | construct this suppress => Diagnostic_context_ctor this suppress
  | destroy this => Diagnostic_context_dtor this
  end.

Fixpoint lifetime_run (t : list lifetime_event) : M unit :=
  match t with
  | [] => ret tt
  | e :: t' => lifetime_step e ;; lifetime_run t'
  end.

(* Nested-scope discipline: an object is destroyed when it is the most
   recently constructed of the objects still alive. [live] lists those
   objects, innermost first; the result lists them after the events. *)
Fixpoint nested_scopes (live : list addr) (t : list lifetime_event)
  : option (list addr) :=
  match t with
  | [] => Some live
  | construct this _ :: t' => nested_scopes (this :: live) t'
  | destroy this :: t' =>
      match live with
      | p :: live' =>
          if decide (p = this) then nested_scopes live' t' else None
      | [] => None
      end
  end.

(* Every destruction of the run pops the context that is destroyed. *)
Fixpoint pops_own_context (t : list lifetime_event) (w : World) : bool :=
  match t with
  | [] => true
  | e :: t' =>
      match e with
      | construct _ _ => true
      | destroy this => bool_decide (head (diags_ w) = Some this)
      end
      && match lifetime_step e w with
         | Some (_, w') => pops_own_context t' w'
         | None => false
         end
  end.

Fixpoint repeat_call (n : nat) (m : M unit) : M unit :=
  match n with
  | O => ret tt
  | S n' => m ;; repeat_call n' m
  end.

(* No two delegates of the registry own a common range of kinds. *)
Fixpoint pairwise_disjoint (reg : Registry) : Prop :=
  match reg with
  | [] => True
  | d :: reg' =>
      Forall (fun d' => ranges_overlap d d' = false) reg'
      /\ pairwise_disjoint reg'
  end.

(** ** Clients of the whole facade *)

Inductive client_op : Type :=
| op_construct (this : addr) (suppress : bool)   (* a context is constructed *)
| op_destroy (this : addr)                        (* a context is destroyed *)
| op_report (r : report)
| op_reset                                        (* reset_diagnostics() *)
| op_replay                                       (* emit_diagnostics() *)
| op_count.                                       (* error_count() *)

Definition client_step (op : client_op) : M unit :=
  match op with
  | op_construct this suppress => Diagnostic_context_ctor this suppress
  | op_destroy this => Diagnostic_context_dtor this
  | op_report r => do_report r
  | op_reset => reset_diagnostics
  | op_replay => emit_diagnostics
  | op_count => _ <- error_count ;; ret tt
  end.

Fixpoint client_run (t : list client_op) : M unit :=
  match t with
  | [] => ret tt
  | op :: t' => client_step op ;; client_run t'
  end.

(* Nested-scope discipline of a client: a context is constructed in storage
   that holds no live context, and is destroyed when it is the most recently
   constructed of the contexts still alive. [outer] are the contexts on the
   stack before the client starts, [live] those the client has constructed
   and not destroyed, innermost first. *)
Fixpoint scoped (outer live : list addr) (t : list client_op)
  : option (list addr) :=
  match t with
  | [] => Some live
  | op_construct this _ :: t' =>
      if bool_decide (this ∈ live ++ outer) then None
      else scoped outer (this :: live) t'
  | op_destroy this :: t' =>
      match live with
      | p :: live' =>
          if decide (p = this) then scoped outer live' t' else None
      | [] => None
      end
  | _ :: t' => scoped outer live t'
  end.

(* The stack is not empty, holds no context twice, and every context on it
   is alive. *)
Definition stack_is_live (w : World) : bool :=
  negb (bool_decide (diags_ w = []))
  && bool_decide (NoDup (diags_ w))
  && forallb (fun p => bool_decide (is_Some (objects w !! p))) (diags_ w).

End Model.

Notation "x <- m ;; k" := (bind m (fun x => k))
  (at level 100, m at next level, right associativity).
Notation "m ;; k" := (bind m (fun _ => k))
  (at level 100, right associativity).

Abbreviation Token_list := (list Token) (only parsing).
Abbreviation Registry := (list Owned_token_set) (only parsing).

(** ** A location service of lines and columns, to run the model on *)

Definition print_line_col (l : nat * nat) : string :=
  match l with
  | (1, 1)%nat => "1:1"
  | (2, 5)%nat => "2:5"
  | _ => "?"
  end.

#[local] Instance line_col : Headers := {|
  Location := nat * nat;
  Location_null := (0, 0)%nat;
  Bound_location := nat * nat;
  print_Bound_location := print_line_col;
  default_suppress := false
|}.

(* The process before any context is constructed *)
Definition initial_world : World :=
  {| objects := ∅; diags_ := []; root_done := false; cerr := EmptyString |}.

Definition example_error : Diagnostic :=
  {| kind := error_diag; loc := (1, 1)%nat; msg := "bad token" |}.

Definition example_note : Diagnostic :=
  {| kind := note_diag; loc := (2, 5)%nat; msg := "declared here" |}.

Definition example_reports : list report :=
  [ report_error (1, 1)%nat "bad token";
    report_warning (2, 5)%nat "unused";
    report_emit example_note;
    report_emit example_error ].

Definition example_context (suppress : bool) : Diagnostic_context :=
  {| suppress_ := suppress; errs_ := 1; elems := [example_error] |}.

(* A process whose top context is a suppressed one inside the root *)
Definition example_world : World :=
  {| objects := <[automatic 0 := example_context true]>
                  (<[root_ := example_context false]> ∅);
     diags_ := [automatic 0; root_];
     root_done := true;
     cerr := "error:1:1: bad token" +:+ String newline EmptyString |}.

Definition example_scopes : list lifetime_event :=
  [ construct (automatic 0) true;
    construct (automatic 1) false;
    destroy (automatic 1);
    construct (automatic 2) true;
    construct (automatic 3) true;
    destroy (automatic 3) ].

Definition example_tokens : list Token :=
  [ {| loc_ := (1, 1)%nat; kind_ := identifier_tok; sym_ := 16%N |};
    {| loc_ := (2, 5)%nat; kind_ := decimal_integer_tok; sym_ := 32%N |} ].

Definition example_hooks : Token_set :=
  {| token_name := fun _ => None; token_spelling := fun _ => None |}.

Definition example_set (p : nat) (first last : Token_kind) : Owned_token_set :=
  {| set_addr := p; set_hooks := example_hooks;
     range_first := first; range_last := last |}.

Definition example_client : list client_op :=
  [ op_report (report_error (1, 1)%nat "bad token");
    op_construct (automatic 1) true;
    op_report (report_warning (2, 5)%nat "unused");
    op_count;
    op_replay;
    op_destroy (automatic 1);
    op_reset;
    op_construct (automatic 2) false;
    op_report (report_emit example_error) ].

(** * Properties *)

Section Properties.

Context {headers : Headers}.

(** ** Strings and machine integers *)

Lemma string_app_assoc (a b c : string) : (a +:+ b) +:+ c = a +:+ (b +:+ c).
Proof.
  induction a as [|x a IH]; [done |].
  change (String x ((a +:+ b) +:+ c) = String x (a +:+ (b +:+ c))).
  by f_equal.
Qed.

Lemma string_app_nil_r (a : string) : a +:+ EmptyString = a.
Proof.
  induction a as [|x a IH]; [done |].
  change (String x (a +:+ EmptyString) = String x a).
  by f_equal.
Qed.

Lemma int_wrap_in_range (z : Z) : INT_MIN <= z <= INT_MAX -> int_wrap z = z.
Proof.
  unfold int_wrap, INT_MIN, INT_MAX. intros Hz.
  rewrite Z.mod_small; lia.
Qed.

Lemma int_incr_in_range (n : Z) :
  INT_MIN <= n -> n < INT_MAX -> int_incr n = n + 1.
Proof.
  intros Hlo Hhi. unfold int_incr. apply int_wrap_in_range.
  unfold INT_MIN, INT_MAX in *. lia.
Qed.

(** ** Writing diagnostics *)

Lemma put_Diagnostic_kind_name (os : ostream) (k : Diagnostic_kind) :
  put_Diagnostic_kind os k = os +:+ kind_name k.
Proof. by destruct k. Qed.

Lemma put_Diagnostic_line (os : ostream) (diag : Diagnostic) :
  put_char (put_Diagnostic os diag) newline = os +:+ report_line diag.
Proof.
  unfold put_Diagnostic, put_char, put_string, report_line.
  rewrite put_Diagnostic_kind_name.
  by rewrite !string_app_assoc.
Qed.

Lemma replay_lines (ds : list Diagnostic) (os : ostream) :
  fold_left (fun os diag => put_char (put_Diagnostic os diag) newline) ds os
  = os +:+ report_lines ds.
Proof.
  revert os. induction ds as [|diag ds IH]; intros os; simpl.
  - by rewrite string_app_nil_r.
  - by rewrite IH, put_Diagnostic_line, string_app_assoc.
Qed.

Lemma report_lines_app (ds ds' : list Diagnostic) :
  report_lines (ds ++ ds') = report_lines ds +:+ report_lines ds'.
Proof.
  induction ds as [|diag ds IH]; simpl; [done |].
  by rewrite IH, string_app_assoc.
Qed.

(** ** The member functions of a context *)

Lemma emit_suppress (diag : Diagnostic) (this : Diagnostic_context) (os : ostream) :
  suppress_ (emit diag this os).1 = suppress_ this.
Proof.
  unfold emit. destruct (decide (kind diag = error_diag)); simpl;
    by destruct (suppress_ this) eqn:E.
Qed.

Lemma emit_errs (diag : Diagnostic) (this : Diagnostic_context) (os : ostream) :
  errs_ (emit diag this os).1
  = if is_error diag then int_incr (errs_ this) else errs_ this.
Proof.
  unfold emit, is_error.
  destruct (decide (kind diag = error_diag)) as [E|E]; simpl.
  - rewrite bool_decide_eq_true_2 by done. by destruct (suppress_ this).
  - rewrite bool_decide_eq_false_2 by done. by destruct (suppress_ this).
Qed.

Lemma emit_elems (diag : Diagnostic) (this : Diagnostic_context) (os : ostream) :
  elems (emit diag this os).1
  = if suppress_ this then elems this ++ [diag] else elems this.
Proof.
  unfold emit. destruct (decide (kind diag = error_diag)); simpl;
    by destruct (suppress_ this).
Qed.

Lemma emit_cerr (diag : Diagnostic) (this : Diagnostic_context) (os : ostream) :
  (emit diag this os).2
  = if suppress_ this then os else os +:+ report_line diag.
Proof.
  unfold emit. destruct (decide (kind diag = error_diag)); simpl;
    destruct (suppress_ this); simpl; try done;
    apply put_Diagnostic_line.
Qed.

(** C2. [emit(diag)] on a suppressed context appends the diagnostic to the
    stored sequence and writes nothing; on a context that is not suppressed
    it writes the line [kind:location: message] to the reporting boundary
    at once and stores nothing. *)
Theorem C2_emit_stores_or_reports
  (diag : Diagnostic) (this : Diagnostic_context) (os : ostream) :
  (suppress_ this = true ->
     elems (emit diag this os).1 = elems this ++ [diag]
     /\ (emit diag this os).2 = os)
  /\ (suppress_ this = false ->
        elems (emit diag this os).1 = elems this
        /\ (emit diag this os).2
           = os +:+ kind_name (kind diag) +:+ ":"
                +:+ print_Bound_location (loc diag) +:+ ": " +:+ msg diag
                +:+ String newline EmptyString).
Proof.
  rewrite emit_elems, emit_cerr.
  split; intros ->; split; try done.
Qed.

Lemma emit_each_suppressed (ds : list Diagnostic) :
  forall (this : Diagnostic_context) (os : ostream),
    suppress_ this = true ->
    suppress_ (emit_each ds this os).1 = true
    /\ elems (emit_each ds this os).1 = elems this ++ ds
    /\ (emit_each ds this os).2 = os.
Proof.
  unfold emit_each.
  induction ds as [|diag ds IH]; intros this os Hsup; simpl.
  - by rewrite app_nil_r.
  - destruct (IH (emit diag this os).1 (emit diag this os).2)
      as (Hs & He & Ho).
    + by rewrite emit_suppress.
    + rewrite <- surjective_pairing in Hs, He, Ho.
      rewrite Hs, He, Ho, emit_elems, emit_cerr, Hsup.
      by rewrite <- app_assoc.
Qed.

(** C3. The replay [emit()] on a suppressed context writes the stored
    diagnostics to the reporting boundary in the order of their insertion,
    one line each, and changes neither the error counter nor anything else
    of the context; on a context that is not suppressed it writes nothing
    and changes nothing. *)
Theorem C3_replay_in_insertion_order
  (this : Diagnostic_context) (os : ostream) :
  (emit_saved this os).1 = this
  /\ (emit_saved this os).2
     = (if suppress_ this then os +:+ report_lines (elems this) else os)
  /\ (forall ds : list Diagnostic,
        suppress_ this = true ->
        (emit_saved (emit_each ds this os).1 (emit_each ds this os).2).2
        = os +:+ report_lines (elems this) +:+ report_lines ds)
  /\ (forall (diag : Diagnostic) (ds : list Diagnostic),
        report_lines (diag :: ds)
        = kind_name (kind diag) +:+ ":" +:+ print_Bound_location (loc diag)
            +:+ ": " +:+ msg diag +:+ String newline (report_lines ds)).
Proof.
  unfold emit_saved at 1 2.
  split; [by destruct (suppress_ this) |].
  split; [| split].
  - destruct (suppress_ this); simpl; [apply replay_lines | done].
  - intros ds Hsup.
    destruct (emit_each_suppressed ds this os Hsup) as (Hs & He & Ho).
    unfold emit_saved. rewrite Hs, He, Ho. simpl.
    by rewrite replay_lines, report_lines_app.
  - intros diag ds. simpl. unfold report_line.
    by rewrite !string_app_assoc.
Qed.

(** ** The facade *)

Lemma call_top (f : method) (w : World) (p : addr) (rest : list addr)
    (c : Diagnostic_context) :
  diags_ w = p :: rest ->
  objects w !! p = Some c ->
  (p <- stack_top ;; call p f) w
  = Some (tt, {| objects := <[p := (f c (cerr w)).1]> (objects w);
                 diags_ := diags_ w;
                 root_done := root_done w;
                 cerr := (f c (cerr w)).2 |}).
Proof.
  intros Hstack Hobj. unfold bind, stack_top, call.
  rewrite Hstack. simpl. rewrite Hobj.
  destruct (f c (cerr w)). simpl. by rewrite Hstack.
Qed.

Lemma eval_bind {A B} (m : M A) (k : A -> M B) (w w1 : World) (a : A) :
  m w = Some (a, w1) -> eval (bind m k) w = eval (k a) w1.
Proof. intros Hm. unfold eval, bind. by rewrite Hm. Qed.

Lemma exec_bind {A B} (m : M A) (k : A -> M B) (w w1 : World) (a : A) :
  m w = Some (a, w1) -> exec (bind m k) w = exec (k a) w1.
Proof. intros Hm. unfold exec, bind. by rewrite Hm. Qed.

Lemma ctor_run (this : addr) (suppress : bool) (w : World) :
  Diagnostic_context_ctor this suppress w
  = Some (tt, {| objects :=
                   <[this := {| suppress_ := suppress; errs_ := 0;
                                elems := [] |}]> (objects w);
                 diags_ := this :: diags_ w;
                 root_done := root_done w;
                 cerr := cerr w |}).
Proof. reflexivity. Qed.

Lemma do_report_emit (r : report) :
  do_report r = (p <- stack_top ;; call p (emit (reported r))).
Proof. by destruct r. Qed.

Lemma error_count_top (w : World) (c : Diagnostic_context) :
  top_context w = Some c -> error_count w = Some (errs_ c, w).
Proof.
  unfold top_context, error_count, bind, stack_top, call_errors.
  destruct (diags_ w) as [|p rest]; [done |].
  simpl. by intros ->.
Qed.

Lemma count_errors_cons (diag : Diagnostic) (ds : list Diagnostic) :
  count_errors (diag :: ds)
  = if is_error diag then S (count_errors ds) else count_errors ds.
Proof.
  unfold count_errors. rewrite filter_cons.
  destruct (is_error diag); by case_decide.
Qed.

Lemma do_reports_run (rs : list report) :
  forall (w : World) (p : addr) (rest : list addr) (c : Diagnostic_context),
    diags_ w = p :: rest ->
    objects w !! p = Some c ->
    INT_MIN <= errs_ c ->
    errs_ c + Z.of_nat (count_errors (reported <$> rs)) <= INT_MAX ->
    exists (w' : World) (c' : Diagnostic_context),
      do_reports rs w = Some (tt, w')
      /\ diags_ w' = diags_ w
      /\ objects w' !! p = Some c'
      /\ errs_ c' = errs_ c + Z.of_nat (count_errors (reported <$> rs))
      /\ suppress_ c' = suppress_ c.
Proof.
  induction rs as [|r rs IH]; intros w p rest c Hstack Hobj Hlo Hhi.
  - exists w, c. cbn. unfold ret. repeat split; try done. lia.
  - rewrite fmap_cons, count_errors_cons in Hhi.
    cbn [do_reports]. unfold bind at 1.
    rewrite do_report_emit, (call_top _ w p rest c Hstack Hobj).
    set (c1 := (emit (reported r) c (cerr w)).1).
    set (w1 := mk_World _ _ _ _).
    assert (Hc1 : errs_ c1
                  = errs_ c + (if is_error (reported r) then 1 else 0)).
    { unfold c1. rewrite emit_errs.
      destruct (is_error (reported r)); [| lia].
      apply int_incr_in_range; lia. }
    destruct (IH w1 p rest c1) as (w' & c' & Hrun & Hst & Hob & Herr & Hsup).
    + done.
    + unfold w1. simpl. apply lookup_insert_eq.
    + rewrite Hc1. destruct (is_error (reported r)); lia.
    + rewrite Hc1. destruct (is_error (reported r)); lia.
    + exists w', c'. rewrite Hrun, Hst. repeat split; try done.
      * rewrite Herr, Hc1, fmap_cons, count_errors_cons.
        destruct (is_error (reported r)); lia.
      * rewrite Hsup. apply emit_suppress.
Qed.

Lemma counted_reports (rs : list report) (w : World) (p : addr)
    (rest : list addr) (c : Diagnostic_context) :
  diags_ w = p :: rest ->
  objects w !! p = Some c ->
  errs_ c = 0 ->
  Z.of_nat (count_errors (reported <$> rs)) <= INT_MAX ->
  eval (do_reports rs ;; error_count) w
  = Some (Z.of_nat (count_errors (reported <$> rs))).
Proof.
  intros Hstack Hobj Hzero Hmax.
  destruct (do_reports_run rs w p rest c Hstack Hobj)
    as (w' & c' & Hrun & Hst & Hob & Herr & _).
  - rewrite Hzero. unfold INT_MIN. lia.
  - rewrite Hzero. lia.
  - unfold eval, bind. rewrite Hrun.
    rewrite (error_count_top w' c').
    + simpl. f_equal. rewrite Herr, Hzero. lia.
    + unfold top_context. by rewrite Hst, Hstack.
Qed.

(** C1. Whether or not the top context is suppressed, after any sequence of
    reports into it (by [emit], [error] or [warning]) [error_count()]
    returns the number of the error diagnostics reported since the context
    was constructed, or since it was last reset, as long as that number is
    an [int]; a diagnostic that is not an error leaves the counter as it
    is. *)
Theorem C1_error_count_is_number_of_errors (rs : list report) (w : World) :
  Z.of_nat (count_errors (reported <$> rs)) <= INT_MAX ->
  (forall (this : addr) (suppress : bool),
     eval (Diagnostic_context_ctor this suppress ;;
           do_reports rs ;; error_count) w
     = Some (Z.of_nat (count_errors (reported <$> rs))))
  /\ (forall c : Diagnostic_context,
        top_context w = Some c ->
        eval (reset_diagnostics ;; do_reports rs ;; error_count) w
        = Some (Z.of_nat (count_errors (reported <$> rs))))
  /\ (forall (diag : Diagnostic) (this : Diagnostic_context) (os : ostream),
        kind diag <> error_diag ->
        errs_ (emit diag this os).1 = errs_ this).
Proof.
  intros Hmax. split; [| split].
  - intros this suppress.
    rewrite (eval_bind _ _ _ _ _ (ctor_run this suppress w)).
    apply (counted_reports rs _ this (diags_ w)
             {| suppress_ := suppress; errs_ := 0; elems := [] |});
      [done | apply lookup_insert_eq | done | done].
  - intros c Htop. unfold top_context in Htop.
    destruct (diags_ w) as [|p rest] eqn:Hstack; [done |].
    unfold reset_diagnostics.
    rewrite (eval_bind _ _ _ _ _ (call_top reset w p rest c Hstack Htop)).
    apply (counted_reports rs _ p rest (reset c (cerr w)).1);
      [done | apply lookup_insert_eq | done | done].
  - intros diag this os Hkind. rewrite emit_errs. unfold is_error.
    by rewrite bool_decide_eq_false_2.
Qed.

(** C4. After [reset()] of the top context, whatever its state,
    [error_count()] returns 0, a replay writes nothing to the reporting
    boundary because no diagnostic is stored, and the context is suppressed
    exactly if it was before. *)
Theorem C4_reset_clears (w : World) (c : Diagnostic_context) :
  top_context w = Some c ->
  eval (reset_diagnostics ;; error_count) w = Some 0
  /\ cerr <$> exec (reset_diagnostics ;; emit_diagnostics) w = Some (cerr w)
  /\ exec reset_diagnostics w ≫= top_context
     = Some {| suppress_ := suppress_ c; errs_ := 0; elems := [] |}
  /\ (forall os : ostream,
        reset c os
        = ({| suppress_ := suppress_ c; errs_ := 0; elems := [] |}, os)
        /\ emit_saved (reset c os).1 os = ((reset c os).1, os)).
Proof.
  intros Htop. unfold top_context in Htop.
  destruct (diags_ w) as [|p rest] eqn:Hstack; [done |].
  pose proof (call_top reset w p rest c Hstack Htop) as Hreset.
  set (w1 := mk_World _ _ _ _) in Hreset.
  assert (Htop1 : top_context w1 = Some (reset c (cerr w)).1).
  { unfold top_context, w1. simpl. rewrite Hstack. apply lookup_insert_eq. }
  repeat split.
  - unfold reset_diagnostics.
    rewrite (eval_bind _ _ _ _ _ Hreset).
    unfold eval. by rewrite (error_count_top _ _ Htop1).
  - unfold reset_diagnostics.
    rewrite (exec_bind _ _ _ _ _ Hreset).
    unfold exec, emit_diagnostics.
    unfold top_context in Htop1.
    destruct (diags_ w1) as [|q rest1] eqn:Hstack1; [done |].
    rewrite (call_top emit_saved w1 q rest1 _ Hstack1 Htop1).
    simpl. unfold emit_saved. simpl. by destruct (suppress_ c).
  - unfold exec, reset_diagnostics. rewrite Hreset. simpl. apply Htop1.
  - unfold emit_saved. simpl. by destruct (suppress_ c).
Qed.

(** ** Construction and destruction *)

Lemma dtor_run (this p : addr) (rest : list addr) (w : World) :
  diags_ w = p :: rest ->
  Diagnostic_context_dtor this w
  = Some (tt, {| objects := delete this (objects w);
                 diags_ := rest;
                 root_done := root_done w;
                 cerr := cerr w |}).
Proof.
  intros Hstack.
  unfold Diagnostic_context_dtor, bind, stack_pop, dealloc.
  by rewrite Hstack.
Qed.

Lemma nested_run (t : list lifetime_event) :
  forall (live live' base : list addr) (w : World),
    nested_scopes live t = Some live' ->
    diags_ w = live ++ base ->
    exists w' : World,
      lifetime_run t w = Some (tt, w')
      /\ diags_ w' = live' ++ base
      /\ pops_own_context t w = true.
Proof.
  induction t as [|[this suppress|this] t IH];
    intros live live' base w Hnest Hstack.
  - exists w. injection Hnest as <-. by repeat split.
  - cbn [nested_scopes] in Hnest.
    destruct (IH (this :: live) live' base
                 (mk_World
                    (<[this := {| suppress_ := suppress; errs_ := 0;
                                  elems := [] |}]> (objects w))
                    (this :: diags_ w) (root_done w) (cerr w)))
      as (w' & Hrun & Hst & Hpop); [done | by simpl; rewrite Hstack |].
    exists w'. cbn [lifetime_run pops_own_context lifetime_step].
    unfold bind at 1. rewrite ctor_run. by repeat split.
  - cbn [nested_scopes] in Hnest.
    destruct live as [|p live0]; [done |].
    destruct (decide (p = this)) as [->|]; [| done].
    destruct (IH live0 live' base
                 (mk_World (delete this (objects w)) (live0 ++ base)
                    (root_done w) (cerr w)))
      as (w' & Hrun & Hst & Hpop); [done | done |].
    exists w'. cbn [lifetime_run pops_own_context lifetime_step].
    unfold bind at 1.
    rewrite (dtor_run this this (live0 ++ base) w Hstack).
    repeat split; try done.
    rewrite Hstack. simpl. by rewrite bool_decide_eq_true_2.
Qed.

(* The destructor does not look at the stack: destroyed out of order, a
   context pops the one above it. *)
Lemma dtor_out_of_order (A B : addr) (sA sB : bool) (w : World) :
  diags_ <$> exec (Diagnostic_context_ctor A sA ;;
                   Diagnostic_context_ctor B sB ;;
                   Diagnostic_context_dtor A) w
  = Some (A :: diags_ w).
Proof.
  unfold exec, bind. rewrite !ctor_run.
  by erewrite (dtor_run A B (A :: diags_ w)) by reflexivity.
Qed.

(** C5. The constructor pushes the new context on the stack, where it is
    the top that the facade reports to, and the destructor pops one context.
    Whenever contexts are constructed and destroyed in nested scopes, every
    destruction pops the very context that is destroyed, and the stack is
    what it was with the contexts still alive on top of it; constructing A
    and B and destroying B and then A leaves the stack as it was. *)
Theorem C5_contexts_nest
  (t : list lifetime_event) (live : list addr) (w : World) :
  nested_scopes [] t = Some live ->
  (diags_ <$> exec (lifetime_run t) w = Some (live ++ diags_ w)
   /\ pops_own_context t w = true)
  /\ (forall (this : addr) (suppress : bool),
        diags_ <$> exec (Diagnostic_context_ctor this suppress) w
        = Some (this :: diags_ w)
        /\ eval (Diagnostic_context_ctor this suppress ;; stack_top) w
           = Some this)
  /\ (forall (A B : addr) (sA sB : bool),
        diags_ <$> exec (Diagnostic_context_ctor A sA ;;
                         Diagnostic_context_ctor B sB ;;
                         Diagnostic_context_dtor B ;;
                         Diagnostic_context_dtor A) w
        = Some (diags_ w)
        /\ pops_own_context
             [construct A sA; construct B sB; destroy B; destroy A] w
           = true).
Proof.
  intros Hnest. split; [| split].
  - destruct (nested_run t [] live (diags_ w) w Hnest eq_refl)
      as (w' & Hrun & Hst & Hpop).
    split; [| done]. unfold exec. rewrite Hrun. simpl. by rewrite Hst.
  - intros this suppress. split; [done |].
    by rewrite (eval_bind _ _ _ _ _ (ctor_run this suppress w)).
  - intros A B sA sB.
    destruct (nested_run
                [construct A sA; construct B sB; destroy B; destroy A]
                [] [] (diags_ w) w) as (w' & Hrun & Hst & Hpop).
    + cbn. rewrite !decide_True by done. done.
    + done.
    + split; [| done].
      unfold exec, bind. rewrite !ctor_run.
      erewrite (dtor_run B B (A :: diags_ w)) by reflexivity.
      by erewrite (dtor_run A A (diags_ w)) by reflexivity.
Qed.

(** ** The root context *)

Lemma init_diagnostics_again (w : World) :
  root_done w = true -> init_diagnostics w = Some (tt, w).
Proof. intros Hdone. unfold init_diagnostics. by rewrite Hdone. Qed.

Lemma init_diagnostics_first (w : World) :
  root_done w = false ->
  init_diagnostics w
  = Some (tt, {| objects :=
                   <[root_ := {| suppress_ := default_suppress; errs_ := 0;
                                 elems := [] |}]> (objects w);
                 diags_ := root_ :: diags_ w;
                 root_done := true;
                 cerr := cerr w |}).
Proof.
  intros Hfirst. unfold init_diagnostics. rewrite Hfirst.
  unfold bind. by rewrite ctor_run.
Qed.

Lemma init_diagnostics_repeat (n : nat) (w : World) :
  root_done w = true ->
  repeat_call n init_diagnostics w = Some (tt, w).
Proof.
  intros Hdone. induction n as [|n IH]; [done |].
  cbn [repeat_call]. unfold bind.
  by rewrite (init_diagnostics_again w Hdone).
Qed.

Lemma call_root_done (p : addr) (f : method) (w w1 : World) :
  call p f w = Some (tt, w1) -> root_done w1 = root_done w.
Proof.
  unfold call. destruct (objects w !! p) as [c|]; [| done].
  destruct (f c (cerr w)). by intros [= <-].
Qed.

Lemma call_top_root_done (f : method) (w w1 : World) :
  (p <- stack_top ;; call p f) w = Some (tt, w1) ->
  root_done w1 = root_done w.
Proof.
  unfold bind, stack_top. destruct (diags_ w) as [|p rest]; [done |].
  apply call_root_done.
Qed.

Lemma client_step_root_done (op : client_op) (w w1 : World) :
  client_step op w = Some (tt, w1) -> root_done w1 = root_done w.
Proof.
  destruct op as [this suppress|this|r| | |]; cbn [client_step].
  - rewrite ctor_run. by intros [= <-].
  - unfold Diagnostic_context_dtor, bind, stack_pop, dealloc.
    destruct (diags_ w); [done |]. by intros [= <-].
  - rewrite do_report_emit. apply call_top_root_done.
  - apply call_top_root_done.
  - apply call_top_root_done.
  - unfold bind, error_count, bind, stack_top, call_errors, ret.
    destruct (diags_ w) as [|p rest]; [done |].
    destruct (objects w !! p); [| done]. by intros [= <-].
Qed.

Lemma client_run_root_done (t : list client_op) :
  forall w w' : World,
    client_run t w = Some (tt, w') -> root_done w' = root_done w.
Proof.
  induction t as [|op t IH]; intros w w'.
  - by intros [= <-].
  - cbn [client_run]. unfold bind.
    destruct (client_step op w) as [[[] w1]|] eqn:Hstep; [| done].
    intros Hrun. rewrite (IH w1 w' Hrun).
    by apply (client_step_root_done op).
Qed.

(** C8. The first call of [init_diagnostics()] constructs the root context
    and pushes it, and it alone, on the stack; every later call constructs
    nothing and leaves the stack, and all the rest, as it is, so that
    calling it twice is the same as calling it once. A later call is any
    call in a state where the root has been constructed: right after the
    first call, or after whatever the clients have done since with contexts
    and the facade. *)
Theorem C8_init_diagnostics_once (w : World) :
  root_done w = false ->
  exists w1 : World,
    exec init_diagnostics w = Some w1
    /\ diags_ w1 = root_ :: diags_ w
    /\ objects w1
       = <[root_ := {| suppress_ := default_suppress; errs_ := 0;
                       elems := [] |}]> (objects w)
    /\ cerr w1 = cerr w
    /\ (forall n : nat, exec (repeat_call n init_diagnostics) w1 = Some w1)
    /\ (forall w0 : World,
          exec (init_diagnostics ;; init_diagnostics) w0
          = exec init_diagnostics w0)
    /\ root_done w1 = true
    /\ (forall w' : World,
          root_done w' = true -> init_diagnostics w' = Some (tt, w'))
    /\ (forall (t : list client_op) (w2 : World),
          exec (client_run t) w1 = Some w2 ->
          root_done w2 = true
          /\ exec init_diagnostics w2 = Some w2
          /\ exec (client_run t ;; init_diagnostics) w1 = Some w2).
Proof.
  intros Hfirst.
  eexists. split.
  { unfold exec. rewrite (init_diagnostics_first w Hfirst). reflexivity. }
  simpl.
  split; [done |]. split; [done |]. split; [done |].
  split; [| split; [| split; [done | split]]].
  - intros n. unfold exec. by rewrite init_diagnostics_repeat.
  - intros w0. unfold exec, bind.
    destruct (root_done w0) eqn:Hdone.
    + by rewrite !(init_diagnostics_again w0 Hdone).
    + rewrite (init_diagnostics_first w0 Hdone).
      by rewrite init_diagnostics_again.
  - apply init_diagnostics_again.
  - intros t w2. unfold exec, bind.
    destruct (client_run t _) as [[[] w3]|] eqn:Hrun; [| done].
    intros [= <-].
    assert (Hdone : root_done w3 = true)
      by (by rewrite (client_run_root_done t _ _ Hrun)).
    by rewrite (init_diagnostics_again w3 Hdone).
Qed.

(** ** Tokens *)

(** C6. A default-constructed token has the kind [error_tok] and converts
    to false; a token converts to true exactly if its kind is not
    [error_tok], so a token of any other kind converts to true. *)
Theorem C6_token_truthiness
  (l : Location) (k : Token_kind) (sym : Symbol_ptr) :
  k <> error_tok ->
  Token_to_bool {| loc_ := l; kind_ := k; sym_ := sym |} = true
  /\ (forall indeterminate : Symbol_ptr,
        Token_kind_of (Token_default indeterminate) = error_tok
        /\ Token_to_bool (Token_default indeterminate) = false)
  /\ (forall t : Token,
        Token_to_bool t = true <-> Token_kind_of t <> error_tok).
Proof.
  assert (Hiff : forall t : Token,
            Token_to_bool t = true <-> Token_kind_of t <> error_tok).
  { intros t. unfold Token_to_bool.
    rewrite negb_true_iff. apply Z.eqb_neq. }
  intros Hk. split; [by apply Hiff | split; [done | apply Hiff]].
Qed.

(** C10. [is_integer(k)] is true exactly if
    [binary_integer_tok <= k <= hexadecimal_integer_tok], that is if [k] is
    one of 52, 53, 54 and 55; [is_integer] of a token is [is_integer] of its
    kind; and [is_integer] is false of the error kind, of the punctuation
    kinds, of the identifier kind and of the boolean kind. *)
Theorem C10_is_integer :
  (forall k : Token_kind,
     (is_integer k = true
      <-> binary_integer_tok <= k <= hexadecimal_integer_tok)
     /\ (is_integer k = true <-> k = 52 \/ k = 53 \/ k = 54 \/ k = 55))
  /\ (forall t : Token, is_integer_Token t = is_integer (Token_kind_of t))
  /\ is_integer error_tok = false
  /\ Forall (fun k => is_integer k = false) punctuation_toks
  /\ is_integer identifier_tok = false
  /\ is_integer boolean_tok = false.
Proof.
  split; [| split; [done | split; [done | split; [| done]]]].
  - intros k. unfold is_integer, binary_integer_tok, hexadecimal_integer_tok.
    rewrite andb_true_iff, !Z.leb_le. split; lia.
  - unfold punctuation_toks. repeat constructor.
Qed.

(** ** Token streams *)

(** C7. [eof()] is true exactly if [first_ == last_]; [location()] is the
    location of the current token when the stream is not at its end, and
    the default-constructed location when it is. *)
Theorem C7_eof_and_location (buf : Token_list) (s : Token_stream) :
  (first_ s <= last_ s <= length buf)%nat ->
  (eof s = true <-> first_ s = last_ s)
  /\ (eof s = true -> location buf s = Some Location_null)
  /\ (eof s = false ->
      exists t : Token,
        buf !! first_ s = Some t
        /\ peek buf s = Some t
        /\ location buf s = Some (Token_location t)).
Proof.
  intros Hwf.
  assert (Heof : eof s = true <-> first_ s = last_ s)
    by apply Nat.eqb_eq.
  split; [done | split].
  - intros Hend. unfold location. by rewrite Hend.
  - intros Hmore.
    assert (Hlt : (first_ s < length buf)%nat).
    { destruct (decide (first_ s = last_ s)) as [E|E]; [| lia].
      apply Heof in E. congruence. }
    destruct (lookup_lt_is_Some_2 buf (first_ s) Hlt) as [t Ht].
    exists t. unfold location, peek. rewrite Hmore, Ht. done.
Qed.

(** ** The registry of token sets *)

Lemma ranges_overlap_sym (a b : Owned_token_set) :
  ranges_overlap a b = ranges_overlap b a.
Proof. unfold ranges_overlap. by rewrite Z.max_comm, Z.min_comm. Qed.

Lemma owns_overlap (a b : Owned_token_set) (k : Token_kind) :
  owns a k = true -> owns b k = true -> ranges_overlap a b = true.
Proof.
  unfold owns, ranges_overlap.
  rewrite !andb_true_iff, !Z.leb_le. lia.
Qed.

Lemma ranges_overlap_common_kind (a b : Owned_token_set) :
  ranges_overlap a b = true
  <-> exists k : Token_kind, owns a k = true /\ owns b k = true.
Proof.
  split.
  - intros Hov. exists (Z.max (range_first a) (range_first b)).
    revert Hov. unfold owns, ranges_overlap.
    rewrite !andb_true_iff, !Z.leb_le. lia.
  - intros (k & Ha & Hb). by apply (owns_overlap a b k).
Qed.

Lemma install_accepted (ts : Owned_token_set) (reg reg' : Registry) :
  install_token_set ts reg = inr reg' ->
  reg' = reg ++ [ts]
  /\ Forall (fun d => ranges_overlap ts d = false) reg.
Proof.
  unfold install_token_set.
  destruct (existsb (ranges_overlap ts) reg) eqn:E; [done |].
  intros [= <-]. split; [done |].
  apply Forall_forall. intros d Hd.
  destruct (ranges_overlap ts d) eqn:Hov; [| done].
  assert (existsb (ranges_overlap ts) reg = true); [| congruence].
  apply existsb_exists. exists d. split; [| done].
  by apply list_elem_of_In.
Qed.

Lemma pairwise_disjoint_snoc (reg : Registry) (ts : Owned_token_set) :
  pairwise_disjoint reg ->
  Forall (fun d => ranges_overlap ts d = false) reg ->
  pairwise_disjoint (reg ++ [ts]).
Proof.
  induction reg as [|d reg IH]; intros Hdis Hnew; simpl.
  - by split.
  - destruct Hdis as [Hd Hdis]. inversion Hnew as [|? ? Hts Hnew']; subst.
    split; [| by apply IH].
    apply Forall_app. split; [done |].
    constructor; [| done]. by rewrite ranges_overlap_sym.
Qed.

Lemma pairwise_disjoint_filter (P : Owned_token_set -> Prop)
    `{!forall d, Decision (P d)} (reg : Registry) :
  pairwise_disjoint reg -> pairwise_disjoint (filter P reg).
Proof.
  induction reg as [|d reg IH]; intros Hdis; [done |].
  destruct Hdis as [Hd Hdis]. rewrite filter_cons.
  case_decide; [| by apply IH].
  split; [| by apply IH].
  apply Forall_forall. intros d' Hd'.
  apply list_elem_of_filter in Hd' as [_ Hd'].
  by apply (proj1 (Forall_forall _ _) Hd).
Qed.

Lemma registry_step_disjoint (reg : Registry) (op : Registry_op) :
  pairwise_disjoint reg -> pairwise_disjoint (registry_step reg op).
Proof.
  intros Hdis. destruct op as [ts|ts]; simpl.
  - destruct (install_token_set ts reg) as [e|reg'] eqn:E; [done |].
    apply install_accepted in E as [-> Hnew].
    by apply pairwise_disjoint_snoc.
  - by apply pairwise_disjoint_filter.
Qed.

Lemma registry_after_disjoint (ops : list Registry_op) :
  pairwise_disjoint (registry_after ops).
Proof.
  unfold registry_after.
  assert (H : forall reg, pairwise_disjoint reg ->
                          pairwise_disjoint (fold_left registry_step ops reg)).
  { induction ops as [|op ops IH]; intros reg Hdis; [done |].
    simpl. apply IH. by apply registry_step_disjoint. }
  by apply H.
Qed.

Lemma delegates_unique (reg : Registry) (k : Token_kind) :
  pairwise_disjoint reg -> (length (delegates reg k) <= 1)%nat.
Proof.
  unfold delegates.
  induction reg as [|d reg IH]; intros Hdis; [simpl; lia |].
  destruct Hdis as [Hd Hdis]. rewrite filter_cons.
  case_decide as Hown; [| by apply IH].
  assert (Hnone : filter (fun d' => owns d' k = true) reg = []).
  { clear IH Hdis. induction reg as [|d' reg IH']; [done |].
    inversion Hd as [|? ? Hdd' Hd']; subst.
    rewrite filter_cons. case_decide as Hown'; [| by apply IH'].
    rewrite (owns_overlap d d' k Hown Hown') in Hdd'. done. }
  rewrite Hnone. simpl. lia.
Qed.

(** C9. When a token set is installed and a second one owns a kind that the
    first owns, the installation of the second is rejected with an error
    and registers nothing, so that no lookup ever consults it; this holds
    for as long as the first is installed, whatever else is. Whatever the
    installations and removals, at most one installed token set claims a
    kind. *)
Theorem C9_overlapping_install_rejected
  (a b : Owned_token_set) (k : Token_kind) (reg reg1 : Registry) :
  owns a k = true ->
  owns b k = true ->
  install_token_set a reg = inr reg1 ->
  install_token_set b reg1 = inl overlapping_token_sets
  /\ registry_step reg1 (install_op b) = reg1
  /\ (forall reg2 : Registry,
        a ∈ reg2 -> install_token_set b reg2 = inl overlapping_token_sets)
  /\ (forall (ops : list Registry_op) (k' : Token_kind),
        (length (delegates (registry_after ops) k') <= 1)%nat).
Proof.
  intros Ha Hb Hinst.
  apply install_accepted in Hinst as [-> _].
  assert (Hin : forall reg2 : Registry,
            a ∈ reg2 ->
            install_token_set b reg2 = inl overlapping_token_sets).
  { intros reg2 Hmem. unfold install_token_set.
    assert (Hex : existsb (ranges_overlap b) reg2 = true); [| by rewrite Hex].
    apply existsb_exists. exists a. split; [by apply list_elem_of_In |].
    rewrite ranges_overlap_sym. by apply (owns_overlap a b k). }
  assert (Hrej : install_token_set b (reg ++ [a]) = inl overlapping_token_sets).
  { apply Hin. apply elem_of_app. right. by apply list_elem_of_singleton. }
  split; [done | split; [| split]].
  - simpl. by rewrite Hrej.
  - exact Hin.
  - intros ops k'. apply delegates_unique, registry_after_disjoint.
Qed.

(** ** Sequences of reports *)

Lemma emit_each_cons (diag : Diagnostic) (ds : list Diagnostic)
    (this : Diagnostic_context) (os : ostream) :
  emit_each (diag :: ds) this os
  = emit_each ds (emit diag this os).1 (emit diag this os).2.
Proof. unfold emit_each. simpl. by rewrite <- surjective_pairing. Qed.

Lemma emit_each_unsuppressed (ds : list Diagnostic) :
  forall (this : Diagnostic_context) (os : ostream),
    suppress_ this = false ->
    suppress_ (emit_each ds this os).1 = false
    /\ elems (emit_each ds this os).1 = elems this
    /\ (emit_each ds this os).2 = os +:+ report_lines ds.
Proof.
  induction ds as [|diag ds IH]; intros this os Hsup.
  - unfold emit_each. simpl. by rewrite string_app_nil_r.
  - rewrite emit_each_cons.
    destruct (IH (emit diag this os).1 (emit diag this os).2)
      as (Hs & He & Ho); [by rewrite emit_suppress |].
    rewrite Hs, He, Ho, emit_elems, emit_cerr, Hsup.
    repeat split; try done.
    simpl. by rewrite string_app_assoc.
Qed.

Lemma world_eta (w : World) :
  {| objects := objects w; diags_ := diags_ w;
     root_done := root_done w; cerr := cerr w |} = w.
Proof. by destruct w. Qed.

Lemma do_reports_emit_each (rs : list report) :
  forall (w : World) (p : addr) (rest : list addr) (c : Diagnostic_context),
    diags_ w = p :: rest ->
    objects w !! p = Some c ->
    do_reports rs w
    = Some (tt, {| objects :=
                     <[p := (emit_each (reported <$> rs) c (cerr w)).1]>
                       (objects w);
                   diags_ := diags_ w;
                   root_done := root_done w;
                   cerr := (emit_each (reported <$> rs) c (cerr w)).2 |}).
Proof.
  induction rs as [|r rs IH]; intros w p rest c Hstack Hobj.
  - unfold emit_each. simpl. unfold ret.
    by rewrite (insert_id _ _ _ Hobj), world_eta.
  - cbn [do_reports]. unfold bind at 1.
    rewrite do_report_emit, (call_top _ w p rest c Hstack Hobj).
    erewrite IH; [| exact Hstack | apply lookup_insert_eq].
    simpl. by rewrite insert_insert_eq, emit_each_cons.
Qed.

(** X1. A sequence of reports through the facade is the sequence of calls
    of [emit] on the context on top of the stack: it changes that context
    and [std::cerr] as those calls do, and it changes neither the stack, nor
    the root flag, nor any other context. *)
Theorem X1_reports_reach_the_top_only
  (rs : list report) (w : World) (p : addr) (rest : list addr)
  (c : Diagnostic_context) :
  diags_ w = p :: rest ->
  objects w !! p = Some c ->
  exists w' : World,
    exec (do_reports rs) w = Some w'
    /\ objects w' !! p = Some (emit_each (reported <$> rs) c (cerr w)).1
    /\ cerr w' = (emit_each (reported <$> rs) c (cerr w)).2
    /\ diags_ w' = diags_ w
    /\ root_done w' = root_done w
    /\ (forall q : addr, q <> p -> objects w' !! q = objects w !! q).
Proof.
  intros Hstack Hobj. eexists. split.
  { unfold exec. by rewrite (do_reports_emit_each rs w p rest c). }
  simpl. repeat split.
  - apply lookup_insert_eq.
  - intros q Hq. by apply lookup_insert_ne.
Qed.

(** X2. Reports to a top context that is not suppressed are written to
    [std::cerr] at once, one line each in the order of the reports, and none
    is stored; reports to a suppressed top context are stored in that order
    behind those stored before, and nothing is written. *)
Theorem X2_reports_print_or_store_in_order
  (rs : list report) (w : World) (c : Diagnostic_context) :
  top_context w = Some c ->
  exists (w' : World) (c' : Diagnostic_context),
    exec (do_reports rs) w = Some w'
    /\ top_context w' = Some c'
    /\ suppress_ c' = suppress_ c
    /\ cerr w'
       = (if suppress_ c then cerr w
          else cerr w +:+ report_lines (reported <$> rs))
    /\ elems c'
       = (if suppress_ c then elems c ++ (reported <$> rs) else elems c).
Proof.
  intros Htop. unfold top_context in Htop.
  destruct (diags_ w) as [|p rest] eqn:Hstack; [done |].
  eexists. eexists. split.
  { unfold exec. by rewrite (do_reports_emit_each rs w p rest c). }
  split.
  { unfold top_context. simpl. rewrite Hstack. apply lookup_insert_eq. }
  simpl. destruct (suppress_ c) eqn:Hsup.
  - destruct (emit_each_suppressed (reported <$> rs) c (cerr w) Hsup)
      as (Hs & He & Ho). by rewrite Hs, He, Ho.
  - destruct (emit_each_unsuppressed (reported <$> rs) c (cerr w) Hsup)
      as (Hs & He & Ho). by rewrite Hs, He, Ho.
Qed.

Lemma replay_after_emit_each (ds : list Diagnostic) (c : Diagnostic_context)
    (os : ostream) :
  elems c = [] ->
  (emit_saved (emit_each ds c os).1 (emit_each ds c os).2).2
  = os +:+ report_lines ds.
Proof.
  intros Hempty. unfold emit_saved.
  destruct (suppress_ c) eqn:Hsup.
  - destruct (emit_each_suppressed ds c os Hsup) as (Hs & He & Ho).
    rewrite Hs, He, Ho, Hempty. simpl. apply replay_lines.
  - destruct (emit_each_unsuppressed ds c os Hsup) as (Hs & He & Ho).
    by rewrite Hs, Ho.
Qed.

Lemma replay_after_reports (rs : list report) (w : World) (p : addr)
    (rest : list addr) (c : Diagnostic_context) :
  diags_ w = p :: rest ->
  objects w !! p = Some c ->
  elems c = [] ->
  cerr <$> exec (do_reports rs ;; emit_diagnostics) w
  = Some (cerr w +:+ report_lines (reported <$> rs)).
Proof.
  intros Hstack Hobj Hempty.
  rewrite (exec_bind _ _ _ _ _ (do_reports_emit_each rs w p rest c Hstack Hobj)).
  unfold exec, emit_diagnostics.
  erewrite call_top; [| exact Hstack | apply lookup_insert_eq].
  simpl. f_equal. by apply replay_after_emit_each.
Qed.

(** X3. Suppression changes when diagnostics are written, not what is
    written: a context constructed suppressed or not, reported to and then
    replayed has written one line for each report, in the order of the
    reports, and nothing else. *)
Theorem X3_suppress_and_replay_writes_the_same
  (this : addr) (suppress : bool) (rs : list report) (w : World) :
  cerr <$> exec (Diagnostic_context_ctor this suppress ;;
                 do_reports rs ;; emit_diagnostics) w
  = Some (cerr w +:+ report_lines (reported <$> rs)).
Proof.
  rewrite (exec_bind _ _ _ _ _ (ctor_run this suppress w)).
  erewrite replay_after_reports; [done | done | apply lookup_insert_eq | done].
Qed.

(** X4. After [reset_diagnostics()] a replay writes the diagnostics reported
    since the reset only: those stored before it are gone, whether or not
    the top context is suppressed. *)
Theorem X4_reset_forgets_stored_diagnostics
  (rs : list report) (w : World) (c : Diagnostic_context) :
  top_context w = Some c ->
  cerr <$> exec (reset_diagnostics ;; do_reports rs ;; emit_diagnostics) w
  = Some (cerr w +:+ report_lines (reported <$> rs)).
Proof.
  intros Htop. unfold top_context in Htop.
  destruct (diags_ w) as [|p rest] eqn:Hstack; [done |].
  unfold reset_diagnostics.
  rewrite (exec_bind _ _ _ _ _ (call_top reset w p rest c Hstack Htop)).
  erewrite replay_after_reports;
    [done | exact Hstack | apply lookup_insert_eq | done].
Qed.

(** X5. A replay does not consume what it writes: [emit_diagnostics()]
    leaves the stored diagnostics of a suppressed top context in place, so a
    second replay writes them a second time. *)
Theorem X5_replay_twice_writes_twice (w : World) (c : Diagnostic_context) :
  top_context w = Some c ->
  suppress_ c = true ->
  exists w' : World,
    exec (emit_diagnostics ;; emit_diagnostics) w = Some w'
    /\ top_context w' = Some c
    /\ cerr w'
       = cerr w +:+ report_lines (elems c) +:+ report_lines (elems c).
Proof.
  intros Htop Hsup. unfold top_context in Htop.
  destruct (diags_ w) as [|p rest] eqn:Hstack; [done |].
  eexists. split.
  { unfold emit_diagnostics at 1.
    rewrite (exec_bind _ _ _ _ _ (call_top emit_saved w p rest c Hstack Htop)).
    unfold exec, emit_diagnostics.
    erewrite call_top; [| exact Hstack | apply lookup_insert_eq].
    reflexivity. }
  unfold top_context. simpl. rewrite Hstack. split.
  - rewrite lookup_insert_eq. unfold emit_saved.
    rewrite Hsup. simpl. by rewrite Hsup.
  - unfold emit_saved. rewrite Hsup. simpl. rewrite Hsup. simpl.
    by rewrite !replay_lines, string_app_assoc.
Qed.

(** ** Scopes *)

(** X6. A context that is constructed in free storage, reported to and
    destroyed leaves the stack, the root flag and every other context as
    they were, whatever was reported: the errors reported to it are not
    counted anywhere, and [std::cerr] holds the lines of the reports if the
    context was not suppressed and is unchanged if it was. *)
Theorem X6_scoped_context_leaves_only_output
  (this : addr) (suppress : bool) (rs : list report) (w : World) :
  objects w !! this = None ->
  exec (Diagnostic_context_ctor this suppress ;;
        do_reports rs ;;
        Diagnostic_context_dtor this) w
  = Some {| objects := objects w;
            diags_ := diags_ w;
            root_done := root_done w;
            cerr := if suppress then cerr w
                    else cerr w +:+ report_lines (reported <$> rs) |}
  /\ eval (Diagnostic_context_ctor this suppress ;;
           do_reports rs ;;
           Diagnostic_context_dtor this ;;
           error_count) w
     = eval error_count w.
Proof.
  intros Hfree.
  set (c0 := {| suppress_ := suppress; errs_ := 0; elems := [] |}).
  assert (Hrun :
    (Diagnostic_context_ctor this suppress ;;
     do_reports rs ;;
     Diagnostic_context_dtor this) w
    = Some (tt, {| objects := objects w;
                   diags_ := diags_ w;
                   root_done := root_done w;
                   cerr := if suppress then cerr w
                           else cerr w +:+ report_lines (reported <$> rs) |})).
  { unfold bind at 1. rewrite ctor_run. fold c0.
    unfold bind at 1.
    erewrite do_reports_emit_each; [| reflexivity | apply lookup_insert_eq].
    erewrite dtor_run by reflexivity.
    simpl. rewrite insert_insert_eq, (delete_insert_id _ _ _ Hfree).
    do 3 f_equal.
    destruct suppress.
    - by destruct (emit_each_suppressed (reported <$> rs) c0 (cerr w) eq_refl)
        as (_ & _ & ->).
    - by destruct (emit_each_unsuppressed (reported <$> rs) c0 (cerr w) eq_refl)
        as (_ & _ & ->). }
  split.
  - unfold exec. by rewrite Hrun.
  - assert (Hassoc :
      (Diagnostic_context_ctor this suppress ;;
       do_reports rs ;;
       Diagnostic_context_dtor this ;;
       error_count) w
      = ((Diagnostic_context_ctor this suppress ;;
          do_reports rs ;;
          Diagnostic_context_dtor this) ;;
         error_count) w).
    { unfold bind.
      destruct (Diagnostic_context_ctor this suppress w) as [[[] w1]|];
        [| done].
      by destruct (do_reports rs w1) as [[[] w2]|]. }
    unfold eval. rewrite Hassoc. unfold bind at 1. rewrite Hrun.
    unfold error_count, bind, stack_top, call_errors. simpl.
    destruct (diags_ w) as [|p rest]; [done |].
    simpl. by destruct (objects w !! p).
Qed.

(** X7. When the first call of [init_diagnostics()] is made while a context
    A is on top of the stack, the root goes on top of A and receives the
    reports; the destructor of A then pops the root, and leaves on top of
    the stack the address of A, which is no longer alive, so that the facade
    has no context to reach. *)
Theorem X7_late_init_diagnostics
  (A : addr) (suppress : bool) (w : World) :
  root_done w = false ->
  eval (Diagnostic_context_ctor A suppress ;;
        init_diagnostics ;; stack_top) w = Some root_
  /\ (exists w' : World,
        exec (Diagnostic_context_ctor A suppress ;;
              init_diagnostics ;;
              Diagnostic_context_dtor A) w = Some w'
        /\ diags_ w' = A :: diags_ w
        /\ objects w' !! A = None
        /\ top_context w' = None)
  /\ eval (Diagnostic_context_ctor A suppress ;;
           init_diagnostics ;;
           Diagnostic_context_dtor A ;;
           error_count) w = None.
Proof.
  intros Hfirst.
  pose proof (ctor_run A suppress w) as Hctor.
  set (w1 := mk_World _ _ _ _) in Hctor.
  pose proof (init_diagnostics_first w1 Hfirst) as Hinit.
  set (w2 := mk_World _ _ _ _) in Hinit.
  pose proof (dtor_run A root_ (A :: diags_ w) w2 eq_refl) as Hdtor.
  set (w3 := mk_World _ _ _ _) in Hdtor.
  assert (Hgone : objects w3 !! A = None) by apply lookup_delete_eq.
  split; [| split].
  - rewrite (eval_bind _ _ _ _ _ Hctor), (eval_bind _ _ _ _ _ Hinit). done.
  - exists w3.
    rewrite (exec_bind _ _ _ _ _ Hctor), (exec_bind _ _ _ _ _ Hinit).
    unfold exec. rewrite Hdtor. by repeat split.
  - rewrite (eval_bind _ _ _ _ _ Hctor), (eval_bind _ _ _ _ _ Hinit),
      (eval_bind _ _ _ _ _ Hdtor).
    unfold eval, error_count, bind, stack_top, call_errors. simpl.
    fold w1 w2. by rewrite lookup_delete_eq.
Qed.

(** X8. The destructor pops the top of the stack whichever context is
    destroyed: when A is destroyed while B, constructed after it, is alive,
    it is B that leaves the stack; B stays alive but out of the facade's
    reach, and the top of the stack is the address of A, which is no longer
    alive. *)
Theorem X8_destruction_out_of_order
  (A B : addr) (sA sB : bool) (w : World) :
  A <> B ->
  exists w' : World,
    exec (Diagnostic_context_ctor A sA ;;
          Diagnostic_context_ctor B sB ;;
          Diagnostic_context_dtor A) w = Some w'
    /\ diags_ w' = A :: diags_ w
    /\ objects w' !! A = None
    /\ objects w' !! B
       = Some {| suppress_ := sB; errs_ := 0; elems := [] |}
    /\ top_context w' = None.
Proof.
  intros Hne.
  pose proof (ctor_run A sA w) as HA.
  set (w1 := mk_World _ _ _ _) in HA.
  pose proof (ctor_run B sB w1) as HB.
  set (w2 := mk_World _ _ _ _) in HB.
  pose proof (dtor_run A B (A :: diags_ w) w2 eq_refl) as Hdtor.
  set (w3 := mk_World _ _ _ _) in Hdtor.
  exists w3.
  rewrite (exec_bind _ _ _ _ _ HA), (exec_bind _ _ _ _ _ HB).
  unfold exec. rewrite Hdtor.
  assert (Hgone : objects w3 !! A = None) by apply lookup_delete_eq.
  repeat split; try done.
  unfold w3. simpl.
  rewrite lookup_delete_ne by done. apply lookup_insert_eq.
Qed.

(** ** Counting *)

(** X11. [error_count()] after a sequence of reports exceeds
    [error_count()] before it by the number of errors among the reports, as
    long as the counts are [int]s: the difference of the two tells how many
    errors a piece of work reported. *)
Theorem X11_error_count_grows_by_the_errors
  (rs : list report) (w : World) (c : Diagnostic_context) :
  top_context w = Some c ->
  INT_MIN <= errs_ c ->
  errs_ c + Z.of_nat (count_errors (reported <$> rs)) <= INT_MAX ->
  eval error_count w = Some (errs_ c)
  /\ eval (do_reports rs ;; error_count) w
     = Some (errs_ c + Z.of_nat (count_errors (reported <$> rs))).
Proof.
  intros Htop Hlo Hhi. split.
  { unfold eval. by rewrite (error_count_top w c Htop). }
  unfold top_context in Htop.
  destruct (diags_ w) as [|p rest] eqn:Hstack; [done |].
  destruct (do_reports_run rs w p rest c Hstack Htop Hlo Hhi)
    as (w' & c' & Hrun & Hst & Hob & Herr & _).
  rewrite (eval_bind _ _ _ _ _ Hrun).
  unfold eval. rewrite (error_count_top w' c').
  - simpl. by rewrite Herr.
  - unfold top_context. by rewrite Hst, Hstack.
Qed.

(** X12. After the first call of [init_diagnostics()] the facade reaches the
    root context: the errors reported next are counted by [error_count()],
    and the reports are on [std::cerr] after a replay at the latest. *)
Theorem X12_root_context_serves_the_facade (rs : list report) (w : World) :
  root_done w = false ->
  Z.of_nat (count_errors (reported <$> rs)) <= INT_MAX ->
  eval (init_diagnostics ;; do_reports rs ;; error_count) w
  = Some (Z.of_nat (count_errors (reported <$> rs)))
  /\ cerr <$> exec (init_diagnostics ;; do_reports rs ;; emit_diagnostics) w
     = Some (cerr w +:+ report_lines (reported <$> rs)).
Proof.
  intros Hfirst Hmax.
  pose proof (init_diagnostics_first w Hfirst) as Hinit.
  set (w1 := mk_World _ _ _ _) in Hinit.
  split.
  - rewrite (eval_bind _ _ _ _ _ Hinit).
    apply (counted_reports rs w1 root_ (diags_ w)
             {| suppress_ := default_suppress; errs_ := 0; elems := [] |});
      [done | apply lookup_insert_eq | done | done].
  - rewrite (exec_bind _ _ _ _ _ Hinit).
    erewrite replay_after_reports;
      [done | reflexivity | apply lookup_insert_eq | done].
Qed.

(** ** Clients that keep to nested scopes *)

Lemma stack_is_live_spec (w : World) :
  stack_is_live w = true
  <-> diags_ w <> []
      /\ NoDup (diags_ w)
      /\ (forall p : addr, p ∈ diags_ w -> is_Some (objects w !! p)).
Proof.
  unfold stack_is_live.
  rewrite !andb_true_iff, negb_true_iff, bool_decide_eq_false,
    bool_decide_eq_true, forallb_forall.
  split.
  - intros [[Hne Hnd] Hall]. repeat split; try done.
    intros p Hp. apply list_elem_of_In, Hall in Hp.
    by apply bool_decide_eq_true in Hp.
  - intros (Hne & Hnd & Hall). repeat split; try done.
    intros p Hp. apply bool_decide_eq_true, Hall. by apply list_elem_of_In.
Qed.

Lemma call_top_keeps_objects (f : method) (w : World) (p : addr)
    (rest : list addr) :
  diags_ w = p :: rest ->
  is_Some (objects w !! p) ->
  exists w1 : World,
    (p <- stack_top ;; call p f) w = Some (tt, w1)
    /\ diags_ w1 = diags_ w
    /\ (forall q : addr,
          is_Some (objects w !! q) -> is_Some (objects w1 !! q)).
Proof.
  intros Hstack [c Hobj]. eexists. split.
  { apply (call_top f w p rest c Hstack Hobj). }
  simpl. split; [done |].
  intros q Hq. apply lookup_insert_is_Some.
  destruct (addr_eq_dec p q); [by left | by right].
Qed.

Lemma client_step_scoped (op : client_op) :
  forall (outer live live' : list addr) (t : list client_op) (w : World),
    outer <> [] ->
    diags_ w = live ++ outer ->
    NoDup (live ++ outer) ->
    (forall p : addr, p ∈ live ++ outer -> is_Some (objects w !! p)) ->
    scoped outer live (op :: t) = Some live' ->
    exists (w1 : World) (live1 : list addr),
      client_step op w = Some (tt, w1)
      /\ scoped outer live1 t = Some live'
      /\ diags_ w1 = live1 ++ outer
      /\ NoDup (live1 ++ outer)
      /\ (forall p : addr, p ∈ live1 ++ outer -> is_Some (objects w1 !! p)).
Proof.
  intros outer live live' t w Houter Hstack Hnd Hall Hsc.
  assert (Htop : exists p rest, diags_ w = p :: rest /\ p ∈ live ++ outer).
  { rewrite Hstack. destruct (live ++ outer) as [|p rest] eqn:E.
    - apply app_eq_nil in E as [_ ?]. done.
    - exists p, rest. split; [done | by left]. }
  assert (Hcall : forall f : method,
            exists w1 : World,
              (p <- stack_top ;; call p f) w = Some (tt, w1)
              /\ diags_ w1 = live ++ outer
              /\ (forall p : addr,
                    p ∈ live ++ outer -> is_Some (objects w1 !! p))).
  { intros f. destruct Htop as (p & rest & Hp & Hin).
    destruct (call_top_keeps_objects f w p rest Hp (Hall p Hin))
      as (w1 & Hrun & Hst & Hkeep).
    exists w1. repeat split; [done | by rewrite Hst |].
    intros q Hq. by apply Hkeep, Hall. }
  destruct op as [this suppress|this|r| | |]; cbn [scoped] in Hsc.
  - case_bool_decide as Hfresh; [done |].
    eexists. exists (this :: live). split; [apply ctor_run |].
    simpl. rewrite Hstack. repeat split; try done.
    + by apply NoDup_cons.
    + intros p Hp. apply lookup_insert_is_Some.
      apply elem_of_cons in Hp as [->|Hp]; [by left |].
      destruct (addr_eq_dec this p); [by left | right; by auto].
  - destruct live as [|p live0]; [done |].
    destruct (decide (p = this)) as [->|]; [| done].
    eexists. exists live0. split; [by apply (dtor_run this this (live0 ++ outer)) |].
    simpl. apply NoDup_cons in Hnd as [Hnotin Hnd].
    repeat split; try done.
    intros q Hq. rewrite lookup_delete_ne.
    + apply Hall. by right.
    + intros ->. done.
  - destruct (Hcall (emit (reported r))) as (w1 & Hrun & Hst & Hkeep).
    exists w1, live. cbn [client_step]. rewrite do_report_emit.
    by repeat split.
  - destruct (Hcall reset) as (w1 & Hrun & Hst & Hkeep).
    exists w1, live. by repeat split.
  - destruct (Hcall emit_saved) as (w1 & Hrun & Hst & Hkeep).
    exists w1, live. by repeat split.
  - exists w, live. repeat split; try done.
    destruct Htop as (p & rest & Hp & Hin).
    destruct (Hall p Hin) as [c Hc].
    cbn [client_step]. unfold bind at 1.
    rewrite (error_count_top w c); [done |].
    unfold top_context. by rewrite Hp.
Qed.

Lemma client_run_scoped (t : list client_op) :
  forall (outer live live' : list addr) (w : World),
    outer <> [] ->
    diags_ w = live ++ outer ->
    NoDup (live ++ outer) ->
    (forall p : addr, p ∈ live ++ outer -> is_Some (objects w !! p)) ->
    scoped outer live t = Some live' ->
    exists w' : World,
      client_run t w = Some (tt, w')
      /\ diags_ w' = live' ++ outer
      /\ NoDup (live' ++ outer)
      /\ (forall p : addr, p ∈ live' ++ outer -> is_Some (objects w' !! p)).
Proof.
  induction t as [|op t IH]; intros outer live live' w Houter Hstack Hnd Hall Hsc.
  - injection Hsc as <-. by exists w.
  - destruct (client_step_scoped op outer live live' t w)
      as (w1 & live1 & Hstep & Hsc1 & Hst1 & Hnd1 & Hall1); try done.
    destruct (IH outer live1 live' w1) as (w' & Hrun & Hrest); try done.
    exists w'. split; [| done].
    cbn [client_run]. unfold bind. by rewrite Hstep.
Qed.

(** X9. Once the stack holds a live context, a client never takes the facade
    to an empty stack or to a dead context as long as it keeps to nested
    scopes: whatever it reports, resets, replays and counts in between, every
    call is defined, the stack ends as the contexts the client still holds
    on top of the stack it started from, and all its contexts are alive. *)
Theorem X9_facade_is_defined_within_scopes
  (t : list client_op) (live : list addr) (w : World) :
  stack_is_live w = true ->
  scoped (diags_ w) [] t = Some live ->
  exists w' : World,
    exec (client_run t) w = Some w'
    /\ diags_ w' = live ++ diags_ w
    /\ stack_is_live w' = true.
Proof.
  intros Hlive Hsc.
  apply stack_is_live_spec in Hlive as (Hne & Hnd & Hall).
  destruct (client_run_scoped t (diags_ w) [] live w)
    as (w' & Hrun & Hst & Hnd' & Hall'); try done.
  exists w'. unfold exec. rewrite Hrun. repeat split; try done.
  apply stack_is_live_spec. rewrite Hst. repeat split; try done.
  intros E. apply app_eq_nil in E as [_ ?]. done.
Qed.

(** ** The reporting boundary *)

Lemma method_appends (f : method) (w w1 : World) :
  (forall (c : Diagnostic_context) (os : ostream),
     exists out : string, (f c os).2 = os +:+ out) ->
  (p <- stack_top ;; call p f) w = Some (tt, w1) ->
  exists out : string, cerr w1 = cerr w +:+ out.
Proof.
  intros Hf. unfold bind, stack_top, call.
  destruct (diags_ w) as [|p rest]; [done |].
  destruct (objects w !! p) as [c|]; [| done].
  destruct (Hf c (cerr w)) as [out Hout].
  destruct (f c (cerr w)) as [c' os]. simpl in Hout.
  intros [= <-]. by exists out.
Qed.

Lemma client_step_appends (op : client_op) (w w1 : World) :
  client_step op w = Some (tt, w1) ->
  exists out : string, cerr w1 = cerr w +:+ out.
Proof.
  destruct op as [this suppress|this|r| | |]; cbn [client_step].
  - rewrite ctor_run. intros [= <-]. exists EmptyString.
    simpl. by rewrite string_app_nil_r.
  - unfold Diagnostic_context_dtor, bind, stack_pop, dealloc.
    destruct (diags_ w); [done |].
    intros [= <-]. exists EmptyString. simpl. by rewrite string_app_nil_r.
  - rewrite do_report_emit. apply method_appends.
    intros c os. rewrite emit_cerr.
    destruct (suppress_ c); eexists; [by rewrite string_app_nil_r | done].
  - apply method_appends. intros c os. exists EmptyString.
    simpl. by rewrite string_app_nil_r.
  - apply method_appends. intros c os. unfold emit_saved.
    destruct (suppress_ c); simpl; eexists;
      [apply replay_lines | by rewrite string_app_nil_r].
  - unfold bind, error_count, bind, stack_top, call_errors, ret.
    destruct (diags_ w) as [|p rest]; [done |].
    destruct (objects w !! p); [| done].
    intros [= <-]. exists EmptyString. by rewrite string_app_nil_r.
Qed.

(** X10. [std::cerr] is only ever appended to: whatever a client does with
    contexts and the facade, what was written stays, as the beginning of
    what is written afterwards. *)
Theorem X10_cerr_is_append_only
  (t : list client_op) (w w' : World) :
  exec (client_run t) w = Some w' ->
  exists out : string, cerr w' = cerr w +:+ out.
Proof.
  revert w. induction t as [|op t IH]; intros w.
  - intros [= <-]. exists EmptyString. by rewrite string_app_nil_r.
  - cbn [client_run]. unfold exec, bind.
    destruct (client_step op w) as [[[] w1]|] eqn:Hstep; [| done].
    intros Hrun. destruct (IH w1 Hrun) as [out' Hout'].
    destruct (client_step_appends op w w1 Hstep) as [out Hout].
    exists (out +:+ out'). by rewrite Hout', Hout, string_app_assoc.
Qed.

(** X13. The name that is written for the kind of a diagnostic tells the
    kind: two different kinds are never written the same, whatever was
    written before. *)
Theorem X13_kinds_are_written_apart
  (os : ostream) (k1 k2 : Diagnostic_kind) :
  k1 <> k2 -> put_Diagnostic_kind os k1 <> put_Diagnostic_kind os k2.
Proof.
  rewrite !put_Diagnostic_kind_name. intros Hne Heq.
  apply (inj (String.app os)) in Heq.
  by destruct k1, k2.
Qed.

(** ** More on tokens and streams *)

(** X14. A stream over a token list is at its end exactly if the list is
    empty, and its location is that of the first token of the list, or the
    default-constructed location if there is none. *)
Theorem X14_stream_over_a_list (toks : Token_list) :
  (eof (Token_stream_over toks) = true <-> toks = [])
  /\ location toks (Token_stream_over toks)
     = Some (match toks with
             | [] => Location_null
             | t :: _ => Token_location t
             end).
Proof. by destruct toks. Qed.

(** X15. An integer token is a valid token: whenever [is_integer] holds of
    a token, the token converts to true; so the default-constructed token is
    no integer. *)
Theorem X15_integer_tokens_are_valid (t : Token) :
  is_integer_Token t = true ->
  Token_to_bool t = true
  /\ forall indeterminate : Symbol_ptr,
       is_integer_Token (Token_default indeterminate) = false.
Proof.
  unfold is_integer_Token, is_integer, Token_to_bool, binary_integer_tok,
    hexadecimal_integer_tok, error_tok.
  rewrite andb_true_iff, !Z.leb_le. intros [Hlo Hhi]. split; [| done].
  apply negb_true_iff, Z.eqb_neq. lia.
Qed.

End Properties.




(** ** The model at work *)

Lemma C1_witness :
  Z.of_nat (count_errors (reported <$> example_reports)) <= INT_MAX
  /\ eval (Diagnostic_context_ctor (automatic 0) true ;;
           do_reports example_reports ;; error_count) initial_world
     = Some 2
  /\ eval (reset_diagnostics ;;
           do_reports example_reports ;; error_count) example_world
     = Some 2.
Proof.
  assert (Hmax :
    Z.of_nat (count_errors (reported <$> example_reports)) <= INT_MAX)
    by (by vm_compute).
  split; [exact Hmax |].
  pose proof (C1_error_count_is_number_of_errors
                example_reports initial_world Hmax) as [Hctor _].
  pose proof (C1_error_count_is_number_of_errors
                example_reports example_world Hmax) as [_ [Hreset _]].
  split.
  - exact (Hctor (automatic 0) true).
  - exact (Hreset (example_context true) eq_refl).
Defined.

Lemma C2_witness :
  (suppress_ (example_context true) = true
   /\ elems (emit example_note (example_context true) EmptyString).1
      = [example_error; example_note]
   /\ (emit example_note (example_context true) EmptyString).2 = EmptyString)
  /\ (suppress_ (example_context false) = false
      /\ elems (emit example_note (example_context false) EmptyString).1
         = [example_error]
      /\ (emit example_note (example_context false) EmptyString).2
         = "note:2:5: declared here" +:+ String newline EmptyString).
Proof.
  split.
  - split; [reflexivity |].
    exact (proj1 (C2_emit_stores_or_reports
                    example_note (example_context true) EmptyString)
                 eq_refl).
  - split; [reflexivity |].
    exact (proj2 (C2_emit_stores_or_reports
                    example_note (example_context false) EmptyString)
                 eq_refl).
Defined.

Lemma C3_witness :
  suppress_ (example_context true) = true
  /\ (emit_saved
        (emit_each [example_note] (example_context true) EmptyString).1
        (emit_each [example_note] (example_context true) EmptyString).2).2
     = "error:1:1: bad token" +:+ String newline EmptyString
       +:+ "note:2:5: declared here" +:+ String newline EmptyString.
Proof.
  split; [reflexivity |].
  exact (proj1 (proj2 (proj2 (C3_replay_in_insertion_order
                                (example_context true) EmptyString)))
               [example_note] eq_refl).
Defined.

Lemma C4_witness :
  top_context example_world = Some (example_context true)
  /\ eval (reset_diagnostics ;; error_count) example_world = Some 0
  /\ cerr <$> exec (reset_diagnostics ;; emit_diagnostics) example_world
     = Some (cerr example_world).
Proof.
  split; [reflexivity |].
  pose proof (C4_reset_clears example_world (example_context true) eq_refl)
    as (Hcount & Hreplay & _).
  split; [exact Hcount | exact Hreplay].
Defined.

Lemma C5_witness :
  nested_scopes [] example_scopes = Some [automatic 2; automatic 0]
  /\ diags_ <$> exec (lifetime_run example_scopes) example_world
     = Some [automatic 2; automatic 0; automatic 0; root_]
  /\ pops_own_context example_scopes example_world = true.
Proof.
  split; [reflexivity |].
  exact (proj1 (C5_contexts_nest example_scopes [automatic 2; automatic 0]
                  example_world eq_refl)).
Defined.

Lemma C6_witness :
  identifier_tok <> error_tok
  /\ Token_to_bool {| loc_ := (1, 1)%nat; kind_ := identifier_tok;
                      sym_ := 16%N |} = true.
Proof.
  assert (Hk : identifier_tok <> error_tok) by discriminate.
  split; [exact Hk |].
  exact (proj1 (C6_token_truthiness (1, 1)%nat identifier_tok 16%N Hk)).
Defined.

Lemma C7_witness :
  (1 <= 2 <= length example_tokens)%nat
  /\ last_ (Token_stream_over example_tokens) = 2%nat
  /\ eof {| first_ := 1; last_ := 2 |} = false
  /\ location example_tokens {| first_ := 1; last_ := 2 |}
     = Some (2, 5)%nat
  /\ location example_tokens {| first_ := 2; last_ := 2 |}
     = Some Location_null.
Proof.
  assert (Hwf : (1 <= 2 <= length example_tokens)%nat) by (simpl; lia).
  assert (Hend : (2 <= 2 <= length example_tokens)%nat) by (simpl; lia).
  split; [exact Hwf |]. split; [reflexivity |]. split; [reflexivity |].
  pose proof (C7_eof_and_location example_tokens
                {| first_ := 1; last_ := 2 |} Hwf) as (_ & _ & Hmore).
  pose proof (C7_eof_and_location example_tokens
                {| first_ := 2; last_ := 2 |} Hend) as (_ & Hnull & _).
  split.
  - destruct (Hmore eq_refl) as (t & Ht & _ & Hloc).
    injection Ht as <-. exact Hloc.
  - exact (Hnull eq_refl).
Defined.

Lemma C8_witness :
  root_done initial_world = false
  /\ exists w1 : World,
       exec init_diagnostics initial_world = Some w1
       /\ diags_ w1 = [root_]
       /\ exec (init_diagnostics ;; init_diagnostics ;; init_diagnostics) w1
          = Some w1
       /\ root_done w1 = true
       /\ init_diagnostics example_world = Some (tt, example_world).
Proof.
  split; [reflexivity |].
  destruct (C8_init_diagnostics_once initial_world eq_refl)
    as (w1 & Hrun & Hstack & _ & _ & Hagain & _ & Hdone & Hlater & _).
  exists w1. split; [exact Hrun |]. split; [exact Hstack |].
  split; [| split; [exact Hdone | exact (Hlater example_world eq_refl)]].
  assert (Hsame :
    exec (init_diagnostics ;; init_diagnostics ;; init_diagnostics) w1
    = exec (repeat_call 3 init_diagnostics) w1).
  { unfold exec, repeat_call, bind, ret.
    destruct (init_diagnostics w1) as [[[] w2]|]; [| reflexivity].
    destruct (init_diagnostics w2) as [[[] w3]|]; [| reflexivity].
    by destruct (init_diagnostics w3) as [[[] w4]|]. }
  rewrite Hsame. exact (Hagain 3%nat).
Defined.

Lemma C9_witness :
  owns (example_set 1 100 199) 150 = true
  /\ owns (example_set 2 150 250) 150 = true
  /\ install_token_set (example_set 1 100 199) []
     = inr [example_set 1 100 199]
  /\ install_token_set (example_set 2 150 250) [example_set 1 100 199]
     = inl overlapping_token_sets.
Proof.
  repeat (split; [reflexivity |]).
  exact (proj1 (C9_overlapping_install_rejected
                  (example_set 1 100 199) (example_set 2 150 250) 150
                  [] [example_set 1 100 199] eq_refl eq_refl eq_refl)).
Defined.

(** ** The further properties at work *)

Lemma X1_witness :
  diags_ example_world = automatic 0 :: [root_]
  /\ objects example_world !! automatic 0 = Some (example_context true)
  /\ exists w' : World,
       exec (do_reports example_reports) example_world = Some w'
       /\ diags_ w' = [automatic 0; root_]
       /\ objects w' !! root_ = Some (example_context false).
Proof.
  split; [reflexivity |]. split; [reflexivity |].
  destruct (X1_reports_reach_the_top_only example_reports example_world
              (automatic 0) [root_] (example_context true) eq_refl eq_refl)
    as (w' & Hrun & _ & _ & Hstack & _ & Hframe).
  exists w'. split; [exact Hrun |]. split; [exact Hstack |].
  rewrite (Hframe root_); [reflexivity | discriminate].
Defined.

Lemma X2_witness :
  top_context example_world = Some (example_context true)
  /\ exists (w' : World) (c' : Diagnostic_context),
       exec (do_reports example_reports) example_world = Some w'
       /\ top_context w' = Some c'
       /\ cerr w' = cerr example_world
       /\ elems c' = example_error :: (reported <$> example_reports).
Proof.
  split; [reflexivity |].
  destruct (X2_reports_print_or_store_in_order example_reports example_world
              (example_context true) eq_refl)
    as (w' & c' & Hrun & Htop & _ & Hcerr & Helems).
  exists w', c'. repeat split; assumption.
Defined.

Lemma X4_witness :
  top_context example_world = Some (example_context true)
  /\ cerr <$> exec (reset_diagnostics ;; do_reports example_reports ;;
                    emit_diagnostics) example_world
     = Some (cerr example_world
             +:+ report_lines (reported <$> example_reports)).
Proof.
  split; [reflexivity |].
  exact (X4_reset_forgets_stored_diagnostics example_reports example_world
           (example_context true) eq_refl).
Defined.

Lemma X5_witness :
  top_context example_world = Some (example_context true)
  /\ suppress_ (example_context true) = true
  /\ exists w' : World,
       exec (emit_diagnostics ;; emit_diagnostics) example_world = Some w'
       /\ top_context w' = Some (example_context true)
       /\ cerr w'
          = cerr example_world +:+ report_lines [example_error]
              +:+ report_lines [example_error].
Proof.
  split; [reflexivity |]. split; [reflexivity |].
  exact (X5_replay_twice_writes_twice example_world (example_context true)
           eq_refl eq_refl).
Defined.

Lemma X6_witness :
  objects example_world !! automatic 5 = None
  /\ eval (Diagnostic_context_ctor (automatic 5) true ;;
           do_reports example_reports ;;
           Diagnostic_context_dtor (automatic 5) ;;
           error_count) example_world
     = eval error_count example_world.
Proof.
  split; [reflexivity |].
  exact (proj2 (X6_scoped_context_leaves_only_output (automatic 5) true
                  example_reports example_world eq_refl)).
Defined.

Lemma X7_witness :
  root_done initial_world = false
  /\ eval (Diagnostic_context_ctor (automatic 0) true ;;
           init_diagnostics ;;
           Diagnostic_context_dtor (automatic 0) ;;
           error_count) initial_world = None.
Proof.
  split; [reflexivity |].
  exact (proj2 (proj2 (X7_late_init_diagnostics (automatic 0) true
                         initial_world eq_refl))).
Defined.

Lemma X8_witness :
  automatic 0 <> automatic 1
  /\ exists w' : World,
       exec (Diagnostic_context_ctor (automatic 0) true ;;
             Diagnostic_context_ctor (automatic 1) false ;;
             Diagnostic_context_dtor (automatic 0)) initial_world = Some w'
       /\ diags_ w' = [automatic 0]
       /\ objects w' !! automatic 0 = None.
Proof.
  assert (Hne : automatic 0 <> automatic 1) by discriminate.
  split; [exact Hne |].
  destruct (X8_destruction_out_of_order (automatic 0) (automatic 1)
              true false initial_world Hne)
    as (w' & Hrun & Hstack & Hgone & _).
  exists w'. repeat split; assumption.
Defined.

Lemma X9_witness :
  stack_is_live example_world = true
  /\ scoped (diags_ example_world) [] example_client = Some [automatic 2]
  /\ exists w' : World,
       exec (client_run example_client) example_world = Some w'
       /\ diags_ w' = [automatic 2; automatic 0; root_]
       /\ stack_is_live w' = true.
Proof.
  split; [reflexivity |]. split; [reflexivity |].
  exact (X9_facade_is_defined_within_scopes example_client [automatic 2]
           example_world eq_refl eq_refl).
Defined.

Lemma X10_witness :
  exists w' : World,
    exec (client_run example_client) example_world = Some w'
    /\ exists out : string, cerr w' = cerr example_world +:+ out.
Proof.
  destruct (exec (client_run example_client) example_world) as [w'|] eqn:E;
    [| vm_compute in E; discriminate E].
  exists w'. split; [reflexivity |].
  exact (X10_cerr_is_append_only example_client example_world w' E).
Defined.

Lemma X11_witness :
  top_context example_world = Some (example_context true)
  /\ INT_MIN <= errs_ (example_context true)
  /\ errs_ (example_context true)
     + Z.of_nat (count_errors (reported <$> example_reports)) <= INT_MAX
  /\ eval error_count example_world = Some 1
  /\ eval (do_reports example_reports ;; error_count) example_world = Some 3.
Proof.
  assert (Hlo : INT_MIN <= errs_ (example_context true)) by (by vm_compute).
  assert (Hhi : errs_ (example_context true)
                + Z.of_nat (count_errors (reported <$> example_reports))
                <= INT_MAX) by (by vm_compute).
  split; [reflexivity |]. split; [exact Hlo |]. split; [exact Hhi |].
  exact (X11_error_count_grows_by_the_errors example_reports example_world
           (example_context true) eq_refl Hlo Hhi).
Defined.

Lemma X12_witness :
  root_done initial_world = false
  /\ Z.of_nat (count_errors (reported <$> example_reports)) <= INT_MAX
  /\ eval (init_diagnostics ;; do_reports example_reports ;; error_count)
          initial_world = Some 2.
Proof.
  assert (Hmax :
    Z.of_nat (count_errors (reported <$> example_reports)) <= INT_MAX)
    by (by vm_compute).
  split; [reflexivity |]. split; [exact Hmax |].
  exact (proj1 (X12_root_context_serves_the_facade example_reports
                  initial_world eq_refl Hmax)).
Defined.

Lemma X13_witness :
  error_diag <> warning_diag
  /\ put_Diagnostic_kind EmptyString error_diag
     <> put_Diagnostic_kind EmptyString warning_diag.
Proof.
  assert (Hne : error_diag <> warning_diag) by discriminate.
  split; [exact Hne |].
  exact (X13_kinds_are_written_apart EmptyString error_diag warning_diag Hne).
Defined.

Lemma X15_witness :
  is_integer_Token {| loc_ := (2, 5)%nat; kind_ := decimal_integer_tok;
                      sym_ := 32%N |} = true
  /\ Token_to_bool {| loc_ := (2, 5)%nat; kind_ := decimal_integer_tok;
                      sym_ := 32%N |} = true.
Proof.
  split; [reflexivity |].
  exact (proj1 (X15_integer_tokens_are_valid
                  {| loc_ := (2, 5)%nat; kind_ := decimal_integer_tok;
                     sym_ := 32%N |} eq_refl)).
Defined.
